(** * pkg/sql/catalog/table_elements.go

    A shallow embedding of the table-element interfaces of the catalog
    package and of the free functions defined over them
    (isIndexInSearchSet, ForEachIndex, FindIndex, the per-view ForEach* and
    Find* helpers, UserDefinedTypeColsHaveSameVersion, ColumnIDToOrdinalMap,
    ColumnNeedsBackfill, HasConcurrentSchemaChanges), followed by the
    properties of these functions.

    Conventions.
    - A Go interface whose methods are argument-free getters over an
      immutable snapshot is a record of the values its methods return; an
      embedded interface is a record field with a coercion.
    - A nil interface value (error, Index) is [None].
    - Go's [int] is [Z]; the unsigned ids of descpb are [N].
    - A callback [func(idx Index) error] is a closure and may update the
      variables it captured: it is a function that threads a state.
    - A slice is a list; indexing out of range panics. *)

From Stdlib Require Import ZArith List Bool Lia.
From stdpp Require Import base option list gmap strings.
Import ListNotations.

Local Open Scope Z_scope.

(** ** Package types: the part of [types.T] read by this file *)

Module types.

Record UserDefinedTypeMetadata := { Version : N }.

Record T := { Oid : N; TypeMeta : UserDefinedTypeMetadata }.

End types.

(** ** Protobuf level: package descpb *)

Module descpb.

Definition ColumnID := N.
Definition IndexID := N.
Definition ConstraintID := N.
Definition MutationID := N.

(** Modelled from the spec: descpb.InvalidMutationID, the sentinel that
    "marks non-mutation (public) elements"; its declaration is not part of
    table_elements.go.  Every other id is a valid one. *)
Definition InvalidMutationID : MutationID := 0%N.

(** Modelled from the spec: the column payload ("id, name, nullable flag,
    default/.../computed expression (optional), type, ... virtual ...
    flags"); the protobuf declaration is not part of table_elements.go. *)
Record ColumnDescriptor := {
  Col_ID : ColumnID;
  Col_Name : string;
  Col_Type : types.T;
  Col_Nullable : bool;
  Col_DefaultExpr : option string;
  Col_ComputeExpr : option string;
  Col_Virtual : bool
}.

(** Modelled from the spec: the index payload ("id, name, ...
    unique/partial/... flags, predicate expression (for partial
    indexes)"). *)
Record IndexDescriptor := {
  Idx_ID : IndexID;
  Idx_Name : string;
  Idx_Unique : bool;
  Idx_Predicate : string
}.

(** Modelled from the spec: the payloads of the other kinds of mutation
    (constraint update, primary-key swap, computed-column swap,
    materialized-view refresh), reduced to the fields the interfaces above
    expose. *)
Record ConstraintToUpdate := {
  Con_ID : ConstraintID;
  Con_Name : string
}.

Record PrimaryKeySwap := {
  OldIndexes : list IndexID;
  NewIndexes : list IndexID
}.

Record ComputedColumnSwap := {
  OldColumnId : ColumnID;
  NewColumnId : ColumnID
}.

Record MaterializedViewRefresh := {
  ShouldBackfill : bool
}.

(** Modelled from the spec: a queued mutation ("Mutation status": direction
    add or drop, rollback flag, sub-phase, and the id of the schema-change
    job it belongs to) wrapping one of the six payload kinds.  The sentinel
    id marks the public elements, so the id of a queued mutation is one of
    the other ids: [MutationID_ m] stands for the id [N.pos (MutationID_ m)]. *)
Inductive DescriptorMutation_State :=
| DELETE_ONLY
| WRITE_AND_DELETE_ONLY
| BACKFILLING
| MERGING.

Inductive DescriptorMutation_Direction :=
| ADD
| DROP.

Inductive DescriptorMutation_Descriptor :=
| Mutation_Column (c : ColumnDescriptor)
| Mutation_Index (i : IndexDescriptor)
| Mutation_Constraint (c : ConstraintToUpdate)
| Mutation_PrimaryKeySwap (s : PrimaryKeySwap)
| Mutation_ComputedColumnSwap (s : ComputedColumnSwap)
| Mutation_MaterializedViewRefresh (r : MaterializedViewRefresh).

Record DescriptorMutation := {
  Descriptor_ : DescriptorMutation_Descriptor;
  State : DescriptorMutation_State;
  Direction : DescriptorMutation_Direction;
  MutationID_ : positive;
  Rollback : bool
}.

(** Modelled from the spec: the table descriptor "owns an ordered sequence
    of columns, an ordered sequence of indexes (with one designated primary
    index), ... and a sequence of pending mutations"; [Columns] and
    [Indexes] are the public columns and the public non-primary indexes, as
    in the documentation of [Ordinal]. *)
Record TableDescriptor := {
  Columns : list ColumnDescriptor;
  PrimaryIndex : IndexDescriptor;
  Indexes : list IndexDescriptor;
  Mutations : list DescriptorMutation
}.

End descpb.

(** ** The interfaces of table_elements.go *)

(** [TableElementMaybeMutation] (lines 25-59). *)
Module TableElementMaybeMutation.

Record t := {
  IsMutation : bool;
  IsRollback : bool;
  MutationID : descpb.MutationID;
  WriteAndDeleteOnly : bool;
  DeleteOnly : bool;
  Backfilling : bool;
  Merging : bool;
  Adding : bool;
  Dropped : bool
}.

End TableElementMaybeMutation.

(** [Index] (lines 98-219): the getters the functions of this file and the
    ordinal documentation refer to. *)
Module Index.

Record t := {
  elem : TableElementMaybeMutation.t;
  IndexDesc : descpb.IndexDescriptor;
  Ordinal : Z;
  Primary : bool;
  Public : bool;
  GetID : descpb.IndexID;
  GetName : string;
  IsPartial : bool;
  IsUnique : bool;
  GetPredicate : string
}.

End Index.

(** [Column] (lines 221-360). [GetType] returns a [*types.T]; the columns
    this file dereferences it for are the ones selected because of their
    type, so the pointer is modelled by the value it points to. *)
Module Column.

Record t := {
  elem : TableElementMaybeMutation.t;
  ColumnDesc : descpb.ColumnDescriptor;
  Ordinal : Z;
  Public : bool;
  GetID : descpb.ColumnID;
  GetName : string;
  GetType : types.T;
  IsNullable : bool;
  HasDefault : bool;
  IsComputed : bool;
  IsVirtual : bool
}.

End Column.

(** [ConstraintToUpdate], [PrimaryKeySwap], [ComputedColumnSwap],
    [MaterializedViewRefresh] (lines 362-460). *)
Module ConstraintToUpdate.

Record t := {
  elem : TableElementMaybeMutation.t;
  ConstraintToUpdateDesc : descpb.ConstraintToUpdate;
  GetName : string;
  GetConstraintID : descpb.ConstraintID
}.

End ConstraintToUpdate.

Module PrimaryKeySwap.

Record t := {
  elem : TableElementMaybeMutation.t;
  PrimaryKeySwapDesc : descpb.PrimaryKeySwap;
  NumOldIndexes : Z;
  NumNewIndexes : Z
}.

End PrimaryKeySwap.

Module ComputedColumnSwap.

Record t := {
  elem : TableElementMaybeMutation.t;
  ComputedColumnSwapDesc : descpb.ComputedColumnSwap
}.

End ComputedColumnSwap.

Module MaterializedViewRefresh.

Record t := {
  elem : TableElementMaybeMutation.t;
  MaterializedViewRefreshDesc : descpb.MaterializedViewRefresh;
  ShouldBackfill : bool
}.

End MaterializedViewRefresh.

(** [Mutation] (lines 61-96): the kind-checked downcasts return nil, here
    [None], when the mutation is of another kind. *)
Module Mutation.

Record t := {
  elem : TableElementMaybeMutation.t;
  AsColumn : option Column.t;
  AsIndex : option Index.t;
  AsConstraint : option ConstraintToUpdate.t;
  AsPrimaryKeySwap : option PrimaryKeySwap.t;
  AsComputedColumnSwap : option ComputedColumnSwap.t;
  AsMaterializedViewRefresh : option MaterializedViewRefresh.t;
  MutationOrdinal : Z
}.

End Mutation.

(** The methods of the [TableDescriptor] interface called by this file; the
    interface itself is declared in another file of the package. *)
Module TableDescriptor.

Record t := {
  IsPhysicalTable : bool;
  AllIndexes : list Index.t;
  ActiveIndexes : list Index.t;
  NonDropIndexes : list Index.t;
  PartialIndexes : list Index.t;
  NonPrimaryIndexes : list Index.t;
  PublicNonPrimaryIndexes : list Index.t;
  WritableNonPrimaryIndexes : list Index.t;
  DeletableNonPrimaryIndexes : list Index.t;
  DeleteOnlyNonPrimaryIndexes : list Index.t;
  UserDefinedTypeColumns : list Column.t;
  AllMutations : list Mutation.t
}.

End TableDescriptor.

(** The fields of [IndexOpts] read by [isIndexInSearchSet]; the struct is
    declared next to [TableDescriptor]. *)
Module IndexOpts.

Record t := {
  NonPhysicalPrimaryIndex : bool;
  DropMutations : bool;
  AddMutations : bool
}.

End IndexOpts.

(** Interface embedding: every element is a [TableElementMaybeMutation]. *)
Coercion Index.elem : Index.t >-> TableElementMaybeMutation.t.
Coercion Column.elem : Column.t >-> TableElementMaybeMutation.t.
Coercion ConstraintToUpdate.elem :
  ConstraintToUpdate.t >-> TableElementMaybeMutation.t.
Coercion PrimaryKeySwap.elem : PrimaryKeySwap.t >-> TableElementMaybeMutation.t.
Coercion ComputedColumnSwap.elem :
  ComputedColumnSwap.t >-> TableElementMaybeMutation.t.
Coercion MaterializedViewRefresh.elem :
  MaterializedViewRefresh.t >-> TableElementMaybeMutation.t.
Coercion Mutation.elem : Mutation.t >-> TableElementMaybeMutation.t.

(** [TableColMap]: a map from column id to [int], with [Set]. *)
Abbreviation TableColMap := (gmap N Z).

Definition TableColMap_Set (m : TableColMap) (col : descpb.ColumnID) (val : Z)
  : TableColMap := <[col := val]> m.

(** ** The functions of table_elements.go *)

(** Lines 511-522. *)
Definition isIndexInSearchSet
  (desc : TableDescriptor.t) (opts : IndexOpts.t) (idx : Index.t) : bool :=
  if negb (IndexOpts.NonPhysicalPrimaryIndex opts)
     && Index.Primary idx
     && negb (TableDescriptor.IsPhysicalTable desc)
  then false
  else if negb (IndexOpts.AddMutations opts)
          && TableElementMaybeMutation.Adding idx
  then false
  else if negb (IndexOpts.DropMutations opts)
          && TableElementMaybeMutation.Dropped idx
  then false
  else true.

(** *** Iteration helpers (lines 524-597)

    [error] is Go's error interface and [Done] is iterutil.Done, the test
    that recognises the early-termination signal iterutil.StopIteration();
    package iterutil is not part of this file, so both are parameters. *)

Section Iteration.

Variable error : Type.
Variable Done : error -> bool.

(** A callback [func(idx Index) error] over the state [St] of the variables
    it captured. *)
Definition visitor (St : Type) : Type := Index.t -> St -> option error * St.

(** The body of the [for ... range desc.AllIndexes()] loop of [ForEachIndex],
    over the part of the slice still to be visited. *)
Fixpoint ForEachIndex_range {St : Type}
  (desc : TableDescriptor.t) (opts : IndexOpts.t) (f : visitor St)
  (slice : list Index.t) (st : St) : option error * St :=
  match slice with
  | [] => (None, st)
  | idx :: rest =>
      if negb (isIndexInSearchSet desc opts idx)
      then ForEachIndex_range desc opts f rest st
      else
        match f idx st with
        | (Some err, st') =>
            if Done err then (None, st') else (Some err, st')
        | (None, st') => ForEachIndex_range desc opts f rest st'
        end
  end.

Definition ForEachIndex {St : Type}
  (desc : TableDescriptor.t) (opts : IndexOpts.t) (f : visitor St) (st : St)
  : option error * St :=
  ForEachIndex_range desc opts f (TableDescriptor.AllIndexes desc) st.

Fixpoint forEachIndex {St : Type}
  (slice : list Index.t) (f : visitor St) (st : St) : option error * St :=
  match slice with
  | [] => (None, st)
  | idx :: rest =>
      match f idx st with
      | (Some err, st') =>
          if Done err then (None, st') else (Some err, st')
      | (None, st') => forEachIndex rest f st'
      end
  end.

Definition ForEachActiveIndex {St : Type}
  (desc : TableDescriptor.t) (f : visitor St) (st : St) :=
  forEachIndex (TableDescriptor.ActiveIndexes desc) f st.

Definition ForEachNonDropIndex {St : Type}
  (desc : TableDescriptor.t) (f : visitor St) (st : St) :=
  forEachIndex (TableDescriptor.NonDropIndexes desc) f st.

Definition ForEachPartialIndex {St : Type}
  (desc : TableDescriptor.t) (f : visitor St) (st : St) :=
  forEachIndex (TableDescriptor.PartialIndexes desc) f st.

Definition ForEachNonPrimaryIndex {St : Type}
  (desc : TableDescriptor.t) (f : visitor St) (st : St) :=
  forEachIndex (TableDescriptor.NonPrimaryIndexes desc) f st.

Definition ForEachPublicNonPrimaryIndex {St : Type}
  (desc : TableDescriptor.t) (f : visitor St) (st : St) :=
  forEachIndex (TableDescriptor.PublicNonPrimaryIndexes desc) f st.

Definition ForEachWritableNonPrimaryIndex {St : Type}
  (desc : TableDescriptor.t) (f : visitor St) (st : St) :=
  forEachIndex (TableDescriptor.WritableNonPrimaryIndexes desc) f st.

Definition ForEachDeletableNonPrimaryIndex {St : Type}
  (desc : TableDescriptor.t) (f : visitor St) (st : St) :=
  forEachIndex (TableDescriptor.DeletableNonPrimaryIndexes desc) f st.

Definition ForEachDeleteOnlyNonPrimaryIndex {St : Type}
  (desc : TableDescriptor.t) (f : visitor St) (st : St) :=
  forEachIndex (TableDescriptor.DeleteOnlyNonPrimaryIndexes desc) f st.

(** **** What a traversal is asked to do

    [record f] is the callback [f] that also appends every index it is
    called on to a log: the log of a run is the sequence of visits. *)
Definition record {St : Type} (f : visitor St) : visitor (list Index.t * St) :=
  fun idx '(log, st) =>
    let '(err, st') := f idx st in (err, (log ++ [idx], st')).

(** [all_nil f l st = Some st']: called on the elements of [l] in order,
    starting from [st], the callback returned nil every time and left the
    state [st']. *)
Fixpoint all_nil {St : Type} (f : visitor St) (l : list Index.t) (st : St)
  : option St :=
  match l with
  | [] => Some st
  | idx :: rest =>
      match f idx st with
      | (None, st') => all_nil f rest st'
      | (Some _, _) => None
      end
  end.

(** [run] traverses [slice] with early termination: it calls the callback
    on the elements of [slice] in order; if every call returns nil it visits
    all of [slice] and returns nil; at the first call that returns an error
    it stops, having visited the slice up to that element and no further,
    and returns nil if the error is the early-termination signal and the
    error itself otherwise. *)
Definition traverses_with_early_stop
  (slice : list Index.t)
  (run : forall St : Type, visitor St -> St -> option error * St) : Prop :=
  forall (St : Type) (f : visitor St) (st : St),
    (forall st',
        all_nil f slice st = Some st' ->
        run St f st = (None, st')
        /\ run _ (record f) ([], st) = (None, (slice, st')))
    /\ (forall pre x post st1 st2 err,
        slice = pre ++ x :: post ->
        all_nil f pre st = Some st1 ->
        f x st1 = (Some err, st2) ->
        let result := if Done err then None else Some err in
        run St f st = (result, st2)
        /\ run _ (record f) ([], st) = (result, (pre ++ [x], st2))).

End Iteration.

Arguments visitor error St : assert.
Arguments ForEachIndex_range {error} Done {St} desc opts f slice st.
Arguments ForEachIndex {error} Done {St} desc opts f st.
Arguments forEachIndex {error} Done {St} slice f st.
Arguments ForEachActiveIndex {error} Done {St} desc f st.
Arguments ForEachNonDropIndex {error} Done {St} desc f st.
Arguments ForEachPartialIndex {error} Done {St} desc f st.
Arguments ForEachNonPrimaryIndex {error} Done {St} desc f st.
Arguments ForEachPublicNonPrimaryIndex {error} Done {St} desc f st.
Arguments ForEachWritableNonPrimaryIndex {error} Done {St} desc f st.
Arguments ForEachDeletableNonPrimaryIndex {error} Done {St} desc f st.
Arguments ForEachDeleteOnlyNonPrimaryIndex {error} Done {St} desc f st.
Arguments record {error St} f idx pat.
Arguments all_nil {error St} f l st.
Arguments traverses_with_early_stop {error} Done slice run.

(** *** Search helpers (lines 599-669) *)

Fixpoint FindIndex_range
  (desc : TableDescriptor.t) (opts : IndexOpts.t) (test : Index.t -> bool)
  (slice : list Index.t) : option Index.t :=
  match slice with
  | [] => None
  | idx :: rest =>
      if negb (isIndexInSearchSet desc opts idx)
      then FindIndex_range desc opts test rest
      else if test idx then Some idx
      else FindIndex_range desc opts test rest
  end.

Definition FindIndex
  (desc : TableDescriptor.t) (opts : IndexOpts.t) (test : Index.t -> bool)
  : option Index.t :=
  FindIndex_range desc opts test (TableDescriptor.AllIndexes desc).

Fixpoint findIndex (slice : list Index.t) (test : Index.t -> bool)
  : option Index.t :=
  match slice with
  | [] => None
  | idx :: rest => if test idx then Some idx else findIndex rest test
  end.

Definition FindActiveIndex (desc : TableDescriptor.t) test :=
  findIndex (TableDescriptor.ActiveIndexes desc) test.

Definition FindNonDropIndex (desc : TableDescriptor.t) test :=
  findIndex (TableDescriptor.NonDropIndexes desc) test.

Definition FindPartialIndex (desc : TableDescriptor.t) test :=
  findIndex (TableDescriptor.PartialIndexes desc) test.

Definition FindPublicNonPrimaryIndex (desc : TableDescriptor.t) test :=
  findIndex (TableDescriptor.PublicNonPrimaryIndexes desc) test.

Definition FindWritableNonPrimaryIndex (desc : TableDescriptor.t) test :=
  findIndex (TableDescriptor.WritableNonPrimaryIndexes desc) test.

Definition FindDeletableNonPrimaryIndex (desc : TableDescriptor.t) test :=
  findIndex (TableDescriptor.DeletableNonPrimaryIndexes desc) test.

Definition FindNonPrimaryIndex (desc : TableDescriptor.t) test :=
  findIndex (TableDescriptor.NonPrimaryIndexes desc) test.

Definition FindDeleteOnlyNonPrimaryIndex (desc : TableDescriptor.t) test :=
  findIndex (TableDescriptor.DeleteOnlyNonPrimaryIndexes desc) test.

(** [r] is the first element of [slice], in slice order, that satisfies
    [test], and the nil sentinel when no element of [slice] does. *)
Definition first_match
  (slice : list Index.t) (test : Index.t -> bool) (r : option Index.t) : Prop :=
  (forall idx,
      r = Some idx <->
      exists pre post,
        slice = pre ++ idx :: post
        /\ test idx = true
        /\ forall y, In y pre -> test y = false)
  /\ (r = None <-> forall y, In y slice -> test y = false).

(** *** UserDefinedTypeColsHaveSameVersion (lines 671-684)

    [otherCols[i]] is an indexing expression: out of range it panics. *)

Inductive outcome (A : Type) : Type :=
| Returns (a : A)
| PanicIndexOutOfRange.

Arguments Returns {A} a.
Arguments PanicIndexOutOfRange {A}.

(** The [for i, thisCol := range ...] loop, from position [i] on;
    [thisCols] is the part of the first slice still to be visited. *)
Fixpoint UserDefinedTypeColsHaveSameVersion_range
  (i : nat) (thisCols otherCols : list Column.t) : outcome bool :=
  match thisCols with
  | [] => Returns true
  | thisCol :: rest =>
      match otherCols !! i with
      | None => PanicIndexOutOfRange
      | Some otherCol =>
          let this := Column.GetType thisCol in
          let other := Column.GetType otherCol in
          if negb (types.Version (types.TypeMeta this)
                   =? types.Version (types.TypeMeta other))%N
          then Returns false
          else UserDefinedTypeColsHaveSameVersion_range (S i) rest otherCols
      end
  end.

Definition UserDefinedTypeColsHaveSameVersion
  (desc otherDesc : TableDescriptor.t) : outcome bool :=
  let otherCols := TableDescriptor.UserDefinedTypeColumns otherDesc in
  UserDefinedTypeColsHaveSameVersion_range
    0 (TableDescriptor.UserDefinedTypeColumns desc) otherCols.

(** The version compared for a column: [GetType().TypeMeta.Version]. *)
Definition typeVersion (col : Column.t) : N :=
  types.Version (types.TypeMeta (Column.GetType col)).

(** *** ColumnIDToOrdinalMap (lines 686-694) *)

Definition ColumnIDToOrdinalMap (columns : list Column.t) : TableColMap :=
  fold_left
    (fun m col => TableColMap_Set m (Column.GetID col) (Column.Ordinal col))
    columns ∅.

(** *** ColumnNeedsBackfill (lines 715-736)

    [HasNullDefault] is a method of descpb.ColumnDescriptor defined with the
    protobuf types; it tells whether the default expression of the column is
    the NULL literal.  It is a parameter here. *)

Section Backfill.

Variable HasNullDefault : descpb.ColumnDescriptor -> bool.

Definition ColumnNeedsBackfill (col : Column.t) : bool :=
  if Column.IsVirtual col then false
  else if TableElementMaybeMutation.Dropped col then true
  else if HasNullDefault (Column.ColumnDesc col) then false
  else Column.HasDefault col || negb (Column.IsNullable col)
       || Column.IsComputed col.

End Backfill.

(** *** HasConcurrentSchemaChanges (lines 738-746) *)

Definition HasConcurrentSchemaChanges (table : TableDescriptor.t) : bool :=
  Z.of_nat (length (TableDescriptor.AllMutations table)) >? 0.

(** *** ColumnTypes and ColumnTypesWithInvertedCol (lines 696-713)

    The result is a slice of [*types.T] made with [make], so it starts as
    [len(columns)] nil pointers, here [None]; [t[i] = v] is an indexed
    assignment and panics out of range. *)

Definition slice_set {A : Type} (t : list A) (i : nat) (v : A)
  : outcome (list A) :=
  if (i <? length t)%nat then Returns (<[i := v]> t)
  else PanicIndexOutOfRange.

(** The [for i, col := range columns] loop, from position [i] on, over the
    slice [t] as written so far. *)
Fixpoint ColumnTypesWithInvertedCol_range
  (i : nat) (columns : list Column.t) (invertedCol : option Column.t)
  (t : list (option types.T)) : outcome (list (option types.T)) :=
  match columns with
  | [] => Returns t
  | col :: rest =>
      match slice_set t i (Some (Column.GetType col)) with
      | PanicIndexOutOfRange => PanicIndexOutOfRange
      | Returns t1 =>
          match invertedCol with
          | Some inverted =>
              if (Column.GetID col =? Column.GetID inverted)%N
              then
                match slice_set t1 i (Some (Column.GetType inverted)) with
                | PanicIndexOutOfRange => PanicIndexOutOfRange
                | Returns t2 =>
                    ColumnTypesWithInvertedCol_range (S i) rest invertedCol t2
                end
              else ColumnTypesWithInvertedCol_range (S i) rest invertedCol t1
          | None => ColumnTypesWithInvertedCol_range (S i) rest invertedCol t1
          end
      end
  end.

Definition ColumnTypesWithInvertedCol
  (columns : list Column.t) (invertedCol : option Column.t)
  : outcome (list (option types.T)) :=
  let t := replicate (length columns) None in
  ColumnTypesWithInvertedCol_range 0 columns invertedCol t.

Definition ColumnTypes (columns : list Column.t)
  : outcome (list (option types.T)) :=
  ColumnTypesWithInvertedCol columns None.

(** The type expected at the position of [col]: the type of the inverted
    column when there is one and [col] has its id, the type of [col]
    otherwise. *)
Definition typeWithInvertedCol
  (invertedCol : option Column.t) (col : Column.t) : types.T :=
  match invertedCol with
  | Some inverted =>
      if (Column.GetID col =? Column.GetID inverted)%N
      then Column.GetType inverted
      else Column.GetType col
  | None => Column.GetType col
  end.

(** A search written as a traversal: the callback remembers the first
    index that passes [test] and asks for the traversal to stop there by
    returning [stop]. *)
Definition stopAtFirst {error : Type} (stop : error) (test : Index.t -> bool)
  : visitor error (option Index.t) :=
  fun idx found => if test idx then (Some stop, Some idx) else (None, found).

(** ** The implementation of the interfaces

    Modelled from the spec: the structures behind the interfaces are built
    in package tabledesc, which is not part of table_elements.go.  The model
    follows the spec's data model and the documentation of [Ordinal] above:
    the public elements come from the descriptor's own lists and are not
    mutations; the others come from the mutation queue, in queue order, and
    carry the status of their mutation; an element's ordinal is its position
    in the collection of all elements of its kind. *)

Module tabledesc.

Import descpb.

Definition State_eqb (a b : DescriptorMutation_State) : bool :=
  match a, b with
  | DELETE_ONLY, DELETE_ONLY
  | WRITE_AND_DELETE_ONLY, WRITE_AND_DELETE_ONLY
  | BACKFILLING, BACKFILLING
  | MERGING, MERGING => true
  | _, _ => false
  end.

Definition Direction_eqb (a b : DescriptorMutation_Direction) : bool :=
  match a, b with
  | ADD, ADD | DROP, DROP => true
  | _, _ => false
  end.

(** Modelled from the spec: the status of an element that is not in a
    mutation ("a sentinel invalid value marks non-mutation (public)
    elements"; the sub-phase "applies only while is-mutation is true"). *)
Definition publicElement : TableElementMaybeMutation.t :=
  {| TableElementMaybeMutation.IsMutation := false;
     TableElementMaybeMutation.IsRollback := false;
     TableElementMaybeMutation.MutationID := InvalidMutationID;
     TableElementMaybeMutation.WriteAndDeleteOnly := false;
     TableElementMaybeMutation.DeleteOnly := false;
     TableElementMaybeMutation.Backfilling := false;
     TableElementMaybeMutation.Merging := false;
     TableElementMaybeMutation.Adding := false;
     TableElementMaybeMutation.Dropped := false |}.

(** Modelled from the spec: the status of the payload of the queued
    mutation [m]. *)
Definition mutationElement (m : DescriptorMutation)
  : TableElementMaybeMutation.t :=
  {| TableElementMaybeMutation.IsMutation := true;
     TableElementMaybeMutation.IsRollback := Rollback m;
     TableElementMaybeMutation.MutationID := N.pos (MutationID_ m);
     TableElementMaybeMutation.WriteAndDeleteOnly :=
       State_eqb (State m) WRITE_AND_DELETE_ONLY;
     TableElementMaybeMutation.DeleteOnly := State_eqb (State m) DELETE_ONLY;
     TableElementMaybeMutation.Backfilling := State_eqb (State m) BACKFILLING;
     TableElementMaybeMutation.Merging := State_eqb (State m) MERGING;
     TableElementMaybeMutation.Adding := Direction_eqb (Direction m) ADD;
     TableElementMaybeMutation.Dropped := Direction_eqb (Direction m) DROP |}.

(** An optional expression is set. *)
Definition isSome {A : Type} (o : option A) : bool :=
  match o with Some _ => true | None => false end.

(** Modelled from the spec: the column with status [e], payload [d] and
    ordinal [ordinal]; it is public when it is not in a mutation. *)
Definition newColumn
  (e : TableElementMaybeMutation.t) (d : ColumnDescriptor) (ordinal : Z)
  : Column.t :=
  {| Column.elem := e;
     Column.ColumnDesc := d;
     Column.Ordinal := ordinal;
     Column.Public := negb (TableElementMaybeMutation.IsMutation e);
     Column.GetID := Col_ID d;
     Column.GetName := Col_Name d;
     Column.GetType := Col_Type d;
     Column.IsNullable := Col_Nullable d;
     Column.HasDefault := isSome (Col_DefaultExpr d);
     Column.IsComputed := isSome (Col_ComputeExpr d);
     Column.IsVirtual := Col_Virtual d |}.

(** Modelled from the spec: the index with status [e], payload [d] and
    ordinal [ordinal]; it is public when it is not in a mutation, and
    partial when its predicate expression is not empty. *)
Definition newIndex
  (e : TableElementMaybeMutation.t) (d : IndexDescriptor) (ordinal : Z)
  (primary : bool) : Index.t :=
  {| Index.elem := e;
     Index.IndexDesc := d;
     Index.Ordinal := ordinal;
     Index.Primary := primary;
     Index.Public := negb (TableElementMaybeMutation.IsMutation e);
     Index.GetID := Idx_ID d;
     Index.GetName := Idx_Name d;
     Index.IsPartial := negb (String.eqb (Idx_Predicate d) EmptyString);
     Index.IsUnique := Idx_Unique d;
     Index.GetPredicate := Idx_Predicate d |}.

(** Modelled from the spec: the mutation [m] at position [mutationOrdinal]
    of the queue; if its payload is a column (an index) the column (index)
    gets the ordinal [columnOrdinal] ([indexOrdinal]).  Exactly one downcast
    succeeds, and the typed view has the status of the mutation. *)
Definition newMutation
  (m : DescriptorMutation) (mutationOrdinal columnOrdinal indexOrdinal : Z)
  : Mutation.t :=
  let e := mutationElement m in
  match Descriptor_ m with
  | Mutation_Column d =>
      {| Mutation.elem := e;
         Mutation.AsColumn := Some (newColumn e d columnOrdinal);
         Mutation.AsIndex := None;
         Mutation.AsConstraint := None;
         Mutation.AsPrimaryKeySwap := None;
         Mutation.AsComputedColumnSwap := None;
         Mutation.AsMaterializedViewRefresh := None;
         Mutation.MutationOrdinal := mutationOrdinal |}
  | Mutation_Index d =>
      {| Mutation.elem := e;
         Mutation.AsColumn := None;
         Mutation.AsIndex := Some (newIndex e d indexOrdinal false);
         Mutation.AsConstraint := None;
         Mutation.AsPrimaryKeySwap := None;
         Mutation.AsComputedColumnSwap := None;
         Mutation.AsMaterializedViewRefresh := None;
         Mutation.MutationOrdinal := mutationOrdinal |}
  | Mutation_Constraint c =>
      {| Mutation.elem := e;
         Mutation.AsColumn := None;
         Mutation.AsIndex := None;
         Mutation.AsConstraint :=
           Some {| ConstraintToUpdate.elem := e;
                   ConstraintToUpdate.ConstraintToUpdateDesc := c;
                   ConstraintToUpdate.GetName := Con_Name c;
                   ConstraintToUpdate.GetConstraintID := Con_ID c |};
         Mutation.AsPrimaryKeySwap := None;
         Mutation.AsComputedColumnSwap := None;
         Mutation.AsMaterializedViewRefresh := None;
         Mutation.MutationOrdinal := mutationOrdinal |}
  | Mutation_PrimaryKeySwap sw =>
      {| Mutation.elem := e;
         Mutation.AsColumn := None;
         Mutation.AsIndex := None;
         Mutation.AsConstraint := None;
         Mutation.AsPrimaryKeySwap :=
           Some {| PrimaryKeySwap.elem := e;
                   PrimaryKeySwap.PrimaryKeySwapDesc := sw;
                   PrimaryKeySwap.NumOldIndexes :=
                     Z.of_nat (length (OldIndexes sw));
                   PrimaryKeySwap.NumNewIndexes :=
                     Z.of_nat (length (NewIndexes sw)) |};
         Mutation.AsComputedColumnSwap := None;
         Mutation.AsMaterializedViewRefresh := None;
         Mutation.MutationOrdinal := mutationOrdinal |}
  | Mutation_ComputedColumnSwap sw =>
      {| Mutation.elem := e;
         Mutation.AsColumn := None;
         Mutation.AsIndex := None;
         Mutation.AsConstraint := None;
         Mutation.AsPrimaryKeySwap := None;
         Mutation.AsComputedColumnSwap :=
           Some {| ComputedColumnSwap.elem := e;
                   ComputedColumnSwap.ComputedColumnSwapDesc := sw |};
         Mutation.AsMaterializedViewRefresh := None;
         Mutation.MutationOrdinal := mutationOrdinal |}
  | Mutation_MaterializedViewRefresh r =>
      {| Mutation.elem := e;
         Mutation.AsColumn := None;
         Mutation.AsIndex := None;
         Mutation.AsConstraint := None;
         Mutation.AsPrimaryKeySwap := None;
         Mutation.AsComputedColumnSwap := None;
         Mutation.AsMaterializedViewRefresh :=
           Some {| MaterializedViewRefresh.elem := e;
                   MaterializedViewRefresh.MaterializedViewRefreshDesc := r;
                   MaterializedViewRefresh.ShouldBackfill :=
                     descpb.ShouldBackfill r |};
         Mutation.MutationOrdinal := mutationOrdinal |}
  end.

(** Modelled from the spec: the public columns, numbered from [ordinal]
    on. *)
Fixpoint publicColumns (ds : list ColumnDescriptor) (ordinal : Z)
  : list Column.t :=
  match ds with
  | [] => []
  | d :: rest =>
      newColumn publicElement d ordinal :: publicColumns rest (ordinal + 1)
  end.

(** Modelled from the spec: the public non-primary indexes, numbered from
    [ordinal] on. *)
Fixpoint publicIndexes (ds : list IndexDescriptor) (ordinal : Z)
  : list Index.t :=
  match ds with
  | [] => []
  | d :: rest =>
      newIndex publicElement d ordinal false :: publicIndexes rest (ordinal + 1)
  end.

(** Modelled from the spec: the mutation queue, with the next free
    mutation, column and index ordinals. *)
Fixpoint mutations
  (ms : list DescriptorMutation)
  (mutationOrdinal columnOrdinal indexOrdinal : Z) : list Mutation.t :=
  match ms with
  | [] => []
  | m :: rest =>
      newMutation m mutationOrdinal columnOrdinal indexOrdinal
      :: match Descriptor_ m with
         | Mutation_Column _ =>
             mutations rest (mutationOrdinal + 1) (columnOrdinal + 1)
               indexOrdinal
         | Mutation_Index _ =>
             mutations rest (mutationOrdinal + 1) columnOrdinal
               (indexOrdinal + 1)
         | _ =>
             mutations rest (mutationOrdinal + 1) columnOrdinal indexOrdinal
         end
  end.

(** Modelled from the spec: the three collections of a descriptor.  The
    public columns take the ordinals from 0, the primary index the ordinal
    0 and the public non-primary indexes the ordinals from 1; the elements
    of the mutation queue follow. *)
Definition AllMutations (desc : TableDescriptor) : list Mutation.t :=
  mutations (Mutations desc) 0
    (Z.of_nat (length (Columns desc)))
    (1 + Z.of_nat (length (Indexes desc))).

Definition AllColumns (desc : TableDescriptor) : list Column.t :=
  publicColumns (Columns desc) 0 ++ omap Mutation.AsColumn (AllMutations desc).

Definition AllIndexes (desc : TableDescriptor) : list Index.t :=
  newIndex publicElement (PrimaryIndex desc) 0 true
  :: publicIndexes (Indexes desc) 1
  ++ omap Mutation.AsIndex (AllMutations desc).

(** A public non-primary index. *)
Definition isPublicNonPrimary (idx : Index.t) : bool :=
  Index.Public idx && negb (Index.Primary idx).

(** The number of public non-primary indexes and of public columns. *)
Definition publicNonPrimaryCount (desc : TableDescriptor) : Z :=
  Z.of_nat (length (List.filter isPublicNonPrimary (AllIndexes desc))).

Definition publicColumnCount (desc : TableDescriptor) : Z :=
  Z.of_nat (length (List.filter Column.Public (AllColumns desc))).

(** Modelled from the spec: every table element of the descriptor, seen
    through the interface all elements share: the indexes, the columns, the
    mutations and the typed views of the mutations. *)
Definition AllElements (desc : TableDescriptor)
  : list TableElementMaybeMutation.t :=
  map Index.elem (AllIndexes desc)
  ++ map Column.elem (AllColumns desc)
  ++ map Mutation.elem (AllMutations desc)
  ++ map ConstraintToUpdate.elem
       (omap Mutation.AsConstraint (AllMutations desc))
  ++ map PrimaryKeySwap.elem
       (omap Mutation.AsPrimaryKeySwap (AllMutations desc))
  ++ map ComputedColumnSwap.elem
       (omap Mutation.AsComputedColumnSwap (AllMutations desc))
  ++ map MaterializedViewRefresh.elem
       (omap Mutation.AsMaterializedViewRefresh (AllMutations desc)).

End tabledesc.

(** ** Sample data *)

Module sample.

Import descpb.

Definition udt (version : N) : types.T :=
  {| types.Oid := 100001; types.TypeMeta := {| types.Version := version |} |}.

Definition columnDesc (id : N) (name : string) (version : N)
  (nullable : bool) (default computed : option string) (virtual : bool)
  : ColumnDescriptor :=
  {| Col_ID := id; Col_Name := name; Col_Type := udt version;
     Col_Nullable := nullable; Col_DefaultExpr := default;
     Col_ComputeExpr := computed; Col_Virtual := virtual |}.

Definition indexDesc (id : N) (name : string) (predicate : string)
  : IndexDescriptor :=
  {| Idx_ID := id; Idx_Name := name; Idx_Unique := false;
     Idx_Predicate := predicate |}.

Definition queued (d : DescriptorMutation_Descriptor)
  (st : DescriptorMutation_State) (dir : DescriptorMutation_Direction)
  (id : positive) : DescriptorMutation :=
  {| Descriptor_ := d; State := st; Direction := dir; MutationID_ := id;
     Rollback := false |}.

(** The default expression is the NULL literal. *)
Definition HasNullDefault (d : ColumnDescriptor) : bool :=
  match Col_DefaultExpr d with
  | Some e => String.eqb e "NULL"
  | None => false
  end.

(** A table with columns a, b, public indexes primary, i1, i2, and a queue
    that adds column c (computed), drops index i3, adds a constraint and
    adds index i4. *)
Definition table : TableDescriptor :=
  {| Columns :=
       [ columnDesc 1 "a" 1 false None None false;
         columnDesc 2 "b" 1 true (Some "NULL") None false ];
     PrimaryIndex := indexDesc 1 "primary" "";
     Indexes := [ indexDesc 2 "i1" ""; indexDesc 3 "i2" "b > 0" ];
     Mutations :=
       [ queued (Mutation_Column
                   (columnDesc 3 "c" 2 true None (Some "a + 1") false))
           WRITE_AND_DELETE_ONLY ADD 1;
         queued (Mutation_Index (indexDesc 4 "i3" "")) DELETE_ONLY DROP 2;
         queued (Mutation_Constraint {| Con_ID := 7%N; Con_Name := "chk" |})
           WRITE_AND_DELETE_ONLY ADD 3;
         queued (Mutation_Index (indexDesc 5 "i4" "")) BACKFILLING ADD 3 ] |}.

(** A descriptor interface over [table], a physical table or not, with
    sample contents for the named views. *)
Definition descriptor (physical : bool) : TableDescriptor.t :=
  let all := tabledesc.AllIndexes table in
  let nonPrimary := List.filter (fun i => negb (Index.Primary i)) all in
  {| TableDescriptor.IsPhysicalTable := physical;
     TableDescriptor.AllIndexes := all;
     TableDescriptor.ActiveIndexes := List.filter Index.Public all;
     TableDescriptor.NonDropIndexes :=
       List.filter
         (fun i : Index.t => negb (TableElementMaybeMutation.Dropped i)) all;
     TableDescriptor.PartialIndexes := List.filter Index.IsPartial nonPrimary;
     TableDescriptor.NonPrimaryIndexes := nonPrimary;
     TableDescriptor.PublicNonPrimaryIndexes :=
       List.filter Index.Public nonPrimary;
     TableDescriptor.WritableNonPrimaryIndexes :=
       List.filter
         (fun i : Index.t => negb (TableElementMaybeMutation.DeleteOnly i))
         nonPrimary;
     TableDescriptor.DeletableNonPrimaryIndexes := nonPrimary;
     TableDescriptor.DeleteOnlyNonPrimaryIndexes :=
       List.filter
         (fun i : Index.t => TableElementMaybeMutation.DeleteOnly i) nonPrimary;
     TableDescriptor.UserDefinedTypeColumns := tabledesc.AllColumns table;
     TableDescriptor.AllMutations := tabledesc.AllMutations table |}.

(** A stand-alone column of a user-defined type. *)
Definition column (id : N) (ordinal : Z) (version : N) : Column.t :=
  tabledesc.newColumn tabledesc.publicElement
    (columnDesc id "c" version true None None false) ordinal.

(** Columns for the cases of the backfill policy. *)
Definition virtualColumn : Column.t :=
  tabledesc.newColumn
    (tabledesc.mutationElement
       (queued (Mutation_Index (indexDesc 9 "x" "")) DELETE_ONLY DROP 4))
    (columnDesc 10 "v" 0 false (Some "1") (Some "a + 1") true) 2.

Definition droppedColumn : Column.t :=
  tabledesc.newColumn
    (tabledesc.mutationElement
       (queued (Mutation_Index (indexDesc 9 "x" "")) DELETE_ONLY DROP 4))
    (columnDesc 11 "d" 0 true None None false) 2.

Definition addedColumn (nullable : bool) (default computed : option string)
  : Column.t :=
  tabledesc.newColumn
    (tabledesc.mutationElement
       (queued (Mutation_Index (indexDesc 9 "x" "")) DELETE_ONLY ADD 4))
    (columnDesc 12 "n" 0 nullable default computed false) 2.

(** A descriptor interface with the given user-defined-type columns. *)
Definition withColumns (cols : list Column.t) : TableDescriptor.t :=
  {| TableDescriptor.IsPhysicalTable := true;
     TableDescriptor.AllIndexes := [];
     TableDescriptor.ActiveIndexes := [];
     TableDescriptor.NonDropIndexes := [];
     TableDescriptor.PartialIndexes := [];
     TableDescriptor.NonPrimaryIndexes := [];
     TableDescriptor.PublicNonPrimaryIndexes := [];
     TableDescriptor.WritableNonPrimaryIndexes := [];
     TableDescriptor.DeletableNonPrimaryIndexes := [];
     TableDescriptor.DeleteOnlyNonPrimaryIndexes := [];
     TableDescriptor.UserDefinedTypeColumns := cols;
     TableDescriptor.AllMutations := [] |}.

(** The four non-primary indexes of [table]. *)
Definition i1 : Index.t :=
  tabledesc.newIndex tabledesc.publicElement (indexDesc 2 "i1" "") 1 false.

Definition i2 : Index.t :=
  tabledesc.newIndex tabledesc.publicElement (indexDesc 3 "i2" "b > 0") 2
    false.

Definition i3 : Index.t :=
  tabledesc.newIndex
    (tabledesc.mutationElement
       (queued (Mutation_Index (indexDesc 4 "i3" "")) DELETE_ONLY DROP 2))
    (indexDesc 4 "i3" "") 3 false.

Definition i4 : Index.t :=
  tabledesc.newIndex
    (tabledesc.mutationElement
       (queued (Mutation_Index (indexDesc 5 "i4" "")) BACKFILLING ADD 3))
    (indexDesc 5 "i4" "") 4 false.

(** Errors: the early-termination signal and a failure. *)
Inductive error :=
| StopIteration
| Failure (msg : string).

Definition Done (err : error) : bool :=
  match err with
  | StopIteration => true
  | Failure _ => false
  end.

(** A callback that counts its calls and returns [err] on the index with
    the id [id]. *)
Definition visit (id : N) (err : error) : visitor error nat :=
  fun idx calls =>
    (if (Index.GetID idx =? id)%N then Some err else None, S calls).

Definition allOpts : IndexOpts.t :=
  {| IndexOpts.NonPhysicalPrimaryIndex := true;
     IndexOpts.DropMutations := true;
     IndexOpts.AddMutations := true |}.

Definition noOpts : IndexOpts.t :=
  {| IndexOpts.NonPhysicalPrimaryIndex := false;
     IndexOpts.DropMutations := false;
     IndexOpts.AddMutations := false |}.

End sample.

(** * Properties *)

(** ** The backfill policy *)

(** C1. [ColumnNeedsBackfill] is false for a virtual column, whatever its
    direction, nullability and default; otherwise it is true for a column in
    a drop mutation; otherwise it is false for a column whose default value
    is exactly NULL; otherwise it is true if and only if the column has a
    default expression, or is not nullable, or is computed. *)
Theorem ColumnNeedsBackfill_policy :
  forall (HasNullDefault : descpb.ColumnDescriptor -> bool) (col : Column.t),
    (Column.IsVirtual col = true ->
     ColumnNeedsBackfill HasNullDefault col = false)
    /\ (Column.IsVirtual col = false ->
        TableElementMaybeMutation.Dropped col = true ->
        ColumnNeedsBackfill HasNullDefault col = true)
    /\ (Column.IsVirtual col = false ->
        TableElementMaybeMutation.Dropped col = false ->
        HasNullDefault (Column.ColumnDesc col) = true ->
        ColumnNeedsBackfill HasNullDefault col = false)
    /\ (Column.IsVirtual col = false ->
        TableElementMaybeMutation.Dropped col = false ->
        HasNullDefault (Column.ColumnDesc col) = false ->
        (ColumnNeedsBackfill HasNullDefault col = true <->
         Column.HasDefault col = true
         \/ Column.IsNullable col = false
         \/ Column.IsComputed col = true)).
Proof.
  intros hnd col. unfold ColumnNeedsBackfill.
  split; [| split; [| split]].
  - intros ->. reflexivity.
  - intros -> ->. reflexivity.
  - intros -> -> ->. reflexivity.
  - intros -> -> ->.
    destruct (Column.HasDefault col), (Column.IsNullable col),
      (Column.IsComputed col); simpl; intuition congruence.
Qed.

Lemma ColumnNeedsBackfill_policy_witness :
  ColumnNeedsBackfill sample.HasNullDefault sample.virtualColumn = false
  /\ ColumnNeedsBackfill sample.HasNullDefault sample.droppedColumn = true
  /\ ColumnNeedsBackfill sample.HasNullDefault
       (sample.addedColumn true (Some "NULL") None) = false
  /\ ColumnNeedsBackfill sample.HasNullDefault
       (sample.addedColumn false None None) = true
  /\ ColumnNeedsBackfill sample.HasNullDefault
       (sample.addedColumn true None (Some "a + 1")) = true.
Proof.
  split; [| split; [| split; [| split]]].
  - exact (proj1 (ColumnNeedsBackfill_policy sample.HasNullDefault
                    sample.virtualColumn) eq_refl).
  - exact (proj1 (proj2 (ColumnNeedsBackfill_policy sample.HasNullDefault
                           sample.droppedColumn)) eq_refl eq_refl).
  - exact (proj1 (proj2 (proj2
             (ColumnNeedsBackfill_policy sample.HasNullDefault
                (sample.addedColumn true (Some "NULL") None))))
             eq_refl eq_refl eq_refl).
  - apply (proj2 (proj2 (proj2
             (ColumnNeedsBackfill_policy sample.HasNullDefault
                (sample.addedColumn false None None))))
             eq_refl eq_refl eq_refl).
    right; left; reflexivity.
  - apply (proj2 (proj2 (proj2
             (ColumnNeedsBackfill_policy sample.HasNullDefault
                (sample.addedColumn true None (Some "a + 1")))))
             eq_refl eq_refl eq_refl).
    right; right; reflexivity.
Defined.

(** ** Concurrent schema changes *)

(** C8. [HasConcurrentSchemaChanges] is true exactly when the mutation
    sequence of the descriptor is not empty. *)
Theorem HasConcurrentSchemaChanges_iff_mutations :
  forall table : TableDescriptor.t,
    HasConcurrentSchemaChanges table = true
    <-> TableDescriptor.AllMutations table <> [].
Proof.
  intros table. unfold HasConcurrentSchemaChanges.
  destruct (TableDescriptor.AllMutations table) as [| m ms]; simpl.
  - split; [discriminate | congruence].
  - split; [discriminate | intros _; reflexivity].
Qed.

Lemma HasConcurrentSchemaChanges_iff_mutations_witness :
  HasConcurrentSchemaChanges (sample.descriptor true) = true
  /\ HasConcurrentSchemaChanges (sample.withColumns []) <> true.
Proof.
  split.
  - apply (proj2 (HasConcurrentSchemaChanges_iff_mutations
                    (sample.descriptor true))).
    discriminate.
  - intros H.
    apply (proj1 (HasConcurrentSchemaChanges_iff_mutations
                    (sample.withColumns [])) H).
    reflexivity.
Defined.

(** ** The search set *)

Lemma isIndexInSearchSet_true_iff desc opts idx :
  isIndexInSearchSet desc opts idx = true
  <-> ~ (Index.Primary idx = true
         /\ TableDescriptor.IsPhysicalTable desc = false
         /\ IndexOpts.NonPhysicalPrimaryIndex opts = false)
      /\ ~ (TableElementMaybeMutation.Adding idx = true
            /\ IndexOpts.AddMutations opts = false)
      /\ ~ (TableElementMaybeMutation.Dropped idx = true
            /\ IndexOpts.DropMutations opts = false).
Proof.
  unfold isIndexInSearchSet.
  destruct (IndexOpts.NonPhysicalPrimaryIndex opts), (Index.Primary idx),
    (TableDescriptor.IsPhysicalTable desc), (IndexOpts.AddMutations opts),
    (TableElementMaybeMutation.Adding idx), (IndexOpts.DropMutations opts),
    (TableElementMaybeMutation.Dropped idx); simpl;
    intuition congruence.
Qed.

Lemma ForEachIndex_range_filter {error : Type} (Done : error -> bool)
  {St : Type} desc opts (f : visitor error St) slice st :
  ForEachIndex_range Done desc opts f slice st
  = forEachIndex Done (List.filter (isIndexInSearchSet desc opts) slice) f st.
Proof.
  revert st. induction slice as [| idx rest IH]; intros st; simpl.
  - reflexivity.
  - destruct (isIndexInSearchSet desc opts idx); simpl.
    + destruct (f idx st) as [[err |] st']; [reflexivity | apply IH].
    + apply IH.
Qed.

Lemma FindIndex_range_findIndex desc opts test slice :
  FindIndex_range desc opts test slice
  = findIndex slice (fun i => isIndexInSearchSet desc opts i && test i).
Proof.
  induction slice as [| idx rest IH]; simpl.
  - reflexivity.
  - destruct (isIndexInSearchSet desc opts idx); simpl.
    + destruct (test idx); [reflexivity | apply IH].
    + apply IH.
Qed.

Lemma findIndex_filter slice keep test :
  findIndex (List.filter keep slice) test
  = findIndex slice (fun i => keep i && test i).
Proof.
  induction slice as [| idx rest IH]; simpl.
  - reflexivity.
  - destruct (keep idx); simpl.
    + destruct (test idx); [reflexivity | apply IH].
    + apply IH.
Qed.

(** ** The collections built for a descriptor *)

Section Collections.

Import descpb.

Lemma filter_all_true {A : Type} (f : A -> bool) (l : list A) :
  (forall x, In x l -> f x = true) -> List.filter f l = l.
Proof.
  induction l as [| a l IH]; simpl; intros H.
  - reflexivity.
  - rewrite (H a (or_introl eq_refl)). f_equal. apply IH. auto.
Qed.

Lemma filter_all_false {A : Type} (f : A -> bool) (l : list A) :
  (forall x, In x l -> f x = false) -> List.filter f l = [].
Proof.
  induction l as [| a l IH]; simpl; intros H.
  - reflexivity.
  - rewrite (H a (or_introl eq_refl)). apply IH. auto.
Qed.

Lemma In_lookup {A : Type} (l : list A) (x : A) :
  In x l <-> exists i : nat, l !! i = Some x.
Proof. rewrite <- list_elem_of_In. apply list_elem_of_lookup. Qed.

(** The public elements, position by position. *)
Lemma publicIndexes_lookup ds ordinal (i : nat) :
  tabledesc.publicIndexes ds ordinal !! i
  = (fun d =>
       tabledesc.newIndex tabledesc.publicElement d (ordinal + Z.of_nat i)
         false) <$> ds !! i.
Proof.
  revert ordinal i. induction ds as [| d ds IH]; intros ordinal i.
  - reflexivity.
  - destruct i as [| i]; simpl.
    + do 2 f_equal. lia.
    + rewrite IH. destruct (ds !! i); simpl; [| reflexivity].
      do 2 f_equal. lia.
Qed.

Lemma publicIndexes_length ds ordinal :
  length (tabledesc.publicIndexes ds ordinal) = length ds.
Proof.
  revert ordinal. induction ds as [| d ds IH]; intros ordinal; simpl;
    [reflexivity | f_equal; apply IH].
Qed.

Lemma publicColumns_lookup ds ordinal (i : nat) :
  tabledesc.publicColumns ds ordinal !! i
  = (fun d =>
       tabledesc.newColumn tabledesc.publicElement d (ordinal + Z.of_nat i))
      <$> ds !! i.
Proof.
  revert ordinal i. induction ds as [| d ds IH]; intros ordinal i.
  - reflexivity.
  - destruct i as [| i]; simpl.
    + do 2 f_equal. lia.
    + rewrite IH. destruct (ds !! i); simpl; [| reflexivity].
      do 2 f_equal. lia.
Qed.

Lemma publicColumns_length ds ordinal :
  length (tabledesc.publicColumns ds ordinal) = length ds.
Proof.
  revert ordinal. induction ds as [| d ds IH]; intros ordinal; simpl;
    [reflexivity | f_equal; apply IH].
Qed.

(** The elements that come from the queue, position by position: the
    [i]-th index of the queue has the [i]-th ordinal after the public ones
    and the status of its mutation. *)
Lemma mutationIndexes_lookup ms mo co io (i : nat) idx :
  omap Mutation.AsIndex (tabledesc.mutations ms mo co io) !! i = Some idx ->
  exists m d,
    In m ms
    /\ Descriptor_ m = Mutation_Index d
    /\ idx = tabledesc.newIndex (tabledesc.mutationElement m) d
               (io + Z.of_nat i) false.
Proof.
  revert mo co io i.
  induction ms as [| m ms IH]; intros mo co io i H.
  - discriminate.
  - simpl in H. unfold tabledesc.newMutation in H.
    destruct (Descriptor_ m) as [c | d | c | sw | sw | r] eqn:E; simpl in H;
      try (apply IH in H; destruct H as (m' & d' & Hin & Hd & ->);
           exists m', d'; split; [right; exact Hin | split; [exact Hd |]];
           reflexivity).
    destruct i as [| i]; simpl in H.
    + inversion H; subst idx. exists m, d.
      split; [left; reflexivity | split; [exact E |]].
      unfold tabledesc.newIndex. f_equal. simpl. lia.
    + apply IH in H. destruct H as (m' & d' & Hin & Hd & ->).
      exists m', d'.
      split; [right; exact Hin | split; [exact Hd |]].
      unfold tabledesc.newIndex. f_equal. lia.
Qed.

Lemma mutationColumns_lookup ms mo co io (i : nat) col :
  omap Mutation.AsColumn (tabledesc.mutations ms mo co io) !! i = Some col ->
  exists m d,
    In m ms
    /\ Descriptor_ m = Mutation_Column d
    /\ col = tabledesc.newColumn (tabledesc.mutationElement m) d
               (co + Z.of_nat i).
Proof.
  revert mo co io i.
  induction ms as [| m ms IH]; intros mo co io i H.
  - discriminate.
  - simpl in H. unfold tabledesc.newMutation in H.
    destruct (Descriptor_ m) as [d | c | c | sw | sw | r] eqn:E; simpl in H;
      try (apply IH in H; destruct H as (m' & d' & Hin & Hd & ->);
           exists m', d'; split; [right; exact Hin | split; [exact Hd |]];
           reflexivity).
    destruct i as [| i]; simpl in H.
    + inversion H; subst col. exists m, d.
      split; [left; reflexivity | split; [exact E |]].
      unfold tabledesc.newColumn. f_equal. simpl. lia.
    + apply IH in H. destruct H as (m' & d' & Hin & Hd & ->).
      exists m', d'.
      split; [right; exact Hin | split; [exact Hd |]].
      unfold tabledesc.newColumn. f_equal. lia.
Qed.

(** The queue itself: the [i]-th mutation has mutation ordinal [i]. *)
Lemma mutations_lookup ms mo co io (i : nat) mut :
  tabledesc.mutations ms mo co io !! i = Some mut ->
  exists m,
    ms !! i = Some m
    /\ Mutation.elem mut = tabledesc.mutationElement m
    /\ Mutation.MutationOrdinal mut = mo + Z.of_nat i.
Proof.
  revert mo co io i.
  induction ms as [| m ms IH]; intros mo co io i H.
  - discriminate.
  - destruct i as [| i]; simpl in H.
    + inversion H; subst mut. exists m. unfold tabledesc.newMutation.
      destruct (Descriptor_ m); simpl; repeat split; auto; lia.
    + destruct (Descriptor_ m); apply IH in H;
        destruct H as (m' & Hm & He & Ho); exists m'; simpl;
        repeat split; auto; lia.
Qed.

Lemma mutations_In ms mo co io mut :
  In mut (tabledesc.mutations ms mo co io) ->
  exists m mo' co' io', mut = tabledesc.newMutation m mo' co' io'.
Proof.
  revert mo co io.
  induction ms as [| m ms IH]; intros mo co io H; simpl in H.
  - contradiction.
  - destruct H as [<- | H]; [eauto |].
    destruct (Descriptor_ m); eapply IH; exact H.
Qed.

(** A typed view of a mutation has the status of the mutation. *)
Lemma newMutation_views m mo co io :
  let mut := tabledesc.newMutation m mo co io in
  Mutation.elem mut = tabledesc.mutationElement m
  /\ (forall x, Mutation.AsColumn mut = Some x ->
                Column.elem x = tabledesc.mutationElement m)
  /\ (forall x, Mutation.AsIndex mut = Some x ->
                Index.elem x = tabledesc.mutationElement m)
  /\ (forall x, Mutation.AsConstraint mut = Some x ->
                ConstraintToUpdate.elem x = tabledesc.mutationElement m)
  /\ (forall x, Mutation.AsPrimaryKeySwap mut = Some x ->
                PrimaryKeySwap.elem x = tabledesc.mutationElement m)
  /\ (forall x, Mutation.AsComputedColumnSwap mut = Some x ->
                ComputedColumnSwap.elem x = tabledesc.mutationElement m)
  /\ (forall x, Mutation.AsMaterializedViewRefresh mut = Some x ->
                MaterializedViewRefresh.elem x = tabledesc.mutationElement m).
Proof.
  unfold tabledesc.newMutation.
  destruct (Descriptor_ m); simpl;
    repeat (split; [try reflexivity; intros x H; inversion H; reflexivity |]);
    intros x H; inversion H; reflexivity.
Qed.

(** An index of the collection, by its position: the primary index, a
    public non-primary index, or an index of the queue. *)
Lemma AllIndexes_lookup desc (i : nat) idx :
  tabledesc.AllIndexes desc !! i = Some idx ->
  Index.Ordinal idx = Z.of_nat i
  /\ Index.Public idx = negb (TableElementMaybeMutation.IsMutation idx)
  /\ ((i = 0%nat
       /\ Index.Primary idx = true
       /\ Index.elem idx = tabledesc.publicElement
       /\ Index.IndexDesc idx = PrimaryIndex desc)
      \/ ((1 <= i < 1 + length (Indexes desc))%nat
          /\ Index.Primary idx = false
          /\ Index.elem idx = tabledesc.publicElement)
      \/ ((1 + length (Indexes desc) <= i)%nat
          /\ Index.Primary idx = false
          /\ exists m, In m (Mutations desc)
                       /\ Index.elem idx = tabledesc.mutationElement m)).
Proof.
  unfold tabledesc.AllIndexes. destruct i as [| j]; simpl; intros H.
  - inversion H; subst idx. simpl. repeat split. left. repeat split.
  - apply lookup_app_Some in H. destruct H as [H | [Hlen H]].
    + rewrite publicIndexes_lookup in H.
      destruct (Indexes desc !! j) as [d |] eqn:E; [| discriminate].
      inversion H; subst idx. simpl.
      apply lookup_lt_Some in E.
      split; [lia |]. split; [reflexivity |].
      right; left. repeat split; lia.
    + rewrite publicIndexes_length in Hlen.
      rewrite publicIndexes_length in H.
      apply mutationIndexes_lookup in H.
      destruct H as (m & d & Hin & Hd & ->). simpl.
      split; [lia |]. split; [reflexivity |].
      right; right. split; [lia |]. split; [reflexivity |].
      exists m. split; [exact Hin | reflexivity].
Qed.

Lemma AllColumns_lookup desc (i : nat) col :
  tabledesc.AllColumns desc !! i = Some col ->
  Column.Ordinal col = Z.of_nat i
  /\ Column.Public col = negb (TableElementMaybeMutation.IsMutation col)
  /\ (((i < length (Columns desc))%nat
       /\ Column.elem col = tabledesc.publicElement)
      \/ ((length (Columns desc) <= i)%nat
          /\ exists m, In m (Mutations desc)
                       /\ Column.elem col = tabledesc.mutationElement m)).
Proof.
  unfold tabledesc.AllColumns. intros H.
  apply lookup_app_Some in H. destruct H as [H | [Hlen H]].
  - rewrite publicColumns_lookup in H.
    destruct (Columns desc !! i) as [d |] eqn:E; [| discriminate].
    inversion H; subst col. simpl.
    apply lookup_lt_Some in E.
    split; [lia |]. split; [reflexivity |].
    left. split; [lia | reflexivity].
  - rewrite publicColumns_length in Hlen.
    rewrite publicColumns_length in H.
    apply mutationColumns_lookup in H.
    destruct H as (m & d & Hin & Hd & ->). simpl.
    split; [lia |]. split; [reflexivity |].
    right. split; [lia |].
    exists m. split; [exact Hin | reflexivity].
Qed.

Lemma publicIndexes_In ds ordinal idx :
  In idx (tabledesc.publicIndexes ds ordinal) ->
  exists d o, idx = tabledesc.newIndex tabledesc.publicElement d o false.
Proof.
  intros H. apply In_lookup in H. destruct H as [i H].
  rewrite publicIndexes_lookup in H.
  destruct (ds !! i) as [d |]; [| discriminate].
  inversion H. eauto.
Qed.

Lemma mutationIndexes_In ms mo co io idx :
  In idx (omap Mutation.AsIndex (tabledesc.mutations ms mo co io)) ->
  exists m d o,
    idx = tabledesc.newIndex (tabledesc.mutationElement m) d o false.
Proof.
  intros H. apply In_lookup in H. destruct H as [i H].
  apply mutationIndexes_lookup in H.
  destruct H as (m & d & _ & _ & ->). eauto.
Qed.

Lemma publicColumns_In ds ordinal col :
  In col (tabledesc.publicColumns ds ordinal) ->
  exists d o, col = tabledesc.newColumn tabledesc.publicElement d o.
Proof.
  intros H. apply In_lookup in H. destruct H as [i H].
  rewrite publicColumns_lookup in H.
  destruct (ds !! i) as [d |]; [| discriminate].
  inversion H. eauto.
Qed.

Lemma mutationColumns_In ms mo co io col :
  In col (omap Mutation.AsColumn (tabledesc.mutations ms mo co io)) ->
  exists m d o, col = tabledesc.newColumn (tabledesc.mutationElement m) d o.
Proof.
  intros H. apply In_lookup in H. destruct H as [i H].
  apply mutationColumns_lookup in H.
  destruct H as (m & d & _ & _ & ->). eauto.
Qed.

(** The public non-primary indexes are the ones of the descriptor's index
    list, and the indexes in a mutation are the ones of the queue. *)
Lemma publicNonPrimaryCount_Indexes desc :
  tabledesc.publicNonPrimaryCount desc = Z.of_nat (length (Indexes desc)).
Proof.
  unfold tabledesc.publicNonPrimaryCount, tabledesc.AllIndexes. simpl.
  rewrite List.filter_app, length_app.
  rewrite filter_all_true, filter_all_false.
  - rewrite publicIndexes_length. simpl. f_equal. lia.
  - intros idx H. apply mutationIndexes_In in H.
    destruct H as (m & d & o & ->). reflexivity.
  - intros idx H. apply publicIndexes_In in H.
    destruct H as (d & o & ->). reflexivity.
Qed.

Lemma mutation_indexes_queue desc :
  List.filter (fun idx : Index.t => TableElementMaybeMutation.IsMutation idx)
    (tabledesc.AllIndexes desc)
  = omap Mutation.AsIndex (tabledesc.AllMutations desc).
Proof.
  unfold tabledesc.AllIndexes. simpl.
  rewrite List.filter_app, filter_all_false, filter_all_true.
  - reflexivity.
  - intros idx H. apply mutationIndexes_In in H.
    destruct H as (m & d & o & ->). reflexivity.
  - intros idx H. apply publicIndexes_In in H.
    destruct H as (d & o & ->). reflexivity.
Qed.

Lemma publicColumnCount_Columns desc :
  tabledesc.publicColumnCount desc = Z.of_nat (length (Columns desc)).
Proof.
  unfold tabledesc.publicColumnCount, tabledesc.AllColumns.
  rewrite List.filter_app, length_app.
  rewrite filter_all_true, filter_all_false.
  - rewrite publicColumns_length. simpl. f_equal. lia.
  - intros col H. apply mutationColumns_In in H.
    destruct H as (m & d & o & ->). reflexivity.
  - intros col H. apply publicColumns_In in H.
    destruct H as (d & o & ->). reflexivity.
Qed.

Lemma mutation_columns_queue desc :
  List.filter (fun col : Column.t => TableElementMaybeMutation.IsMutation col)
    (tabledesc.AllColumns desc)
  = omap Mutation.AsColumn (tabledesc.AllMutations desc).
Proof.
  unfold tabledesc.AllColumns.
  rewrite List.filter_app, filter_all_false, filter_all_true.
  - reflexivity.
  - intros col H. apply mutationColumns_In in H.
    destruct H as (m & d & o & ->). reflexivity.
  - intros col H. apply publicColumns_In in H.
    destruct H as (d & o & ->). reflexivity.
Qed.

(** Along the queue the ordinals of the indexes, and of the columns,
    increase. *)
Lemma mutations_index_ordinal_lower ms mo co io (j : nat) mut idx :
  tabledesc.mutations ms mo co io !! j = Some mut ->
  Mutation.AsIndex mut = Some idx ->
  io <= Index.Ordinal idx.
Proof.
  revert mo co io j.
  induction ms as [| m ms IH]; intros mo co io j H Hidx.
  - discriminate.
  - destruct j as [| j]; simpl in H.
    + injection H as <-. unfold tabledesc.newMutation in Hidx.
      destruct (Descriptor_ m); simpl in Hidx; try discriminate.
      injection Hidx as <-. simpl. lia.
    + destruct (Descriptor_ m); apply IH in H; auto; lia.
Qed.

Lemma mutations_index_ordinal_mono ms mo co io (j1 j2 : nat) m1 m2 i1 i2 :
  (j1 < j2)%nat ->
  tabledesc.mutations ms mo co io !! j1 = Some m1 ->
  tabledesc.mutations ms mo co io !! j2 = Some m2 ->
  Mutation.AsIndex m1 = Some i1 ->
  Mutation.AsIndex m2 = Some i2 ->
  Index.Ordinal i1 < Index.Ordinal i2.
Proof.
  revert mo co io j1 j2.
  induction ms as [| m ms IH]; intros mo co io j1 j2 Hlt H1 H2 Hi1 Hi2.
  - discriminate.
  - destruct j2 as [| j2]; [lia |].
    destruct j1 as [| j1]; simpl in H1, H2.
    + injection H1 as <-. unfold tabledesc.newMutation in Hi1.
      destruct (Descriptor_ m); simpl in Hi1; try discriminate.
      injection Hi1 as <-. simpl.
      pose proof (mutations_index_ordinal_lower _ _ _ _ _ _ _ H2 Hi2). lia.
    + destruct (Descriptor_ m);
        (eapply IH; [| exact H1 | exact H2 | exact Hi1 | exact Hi2]; lia).
Qed.

Lemma mutations_column_ordinal_lower ms mo co io (j : nat) mut col :
  tabledesc.mutations ms mo co io !! j = Some mut ->
  Mutation.AsColumn mut = Some col ->
  co <= Column.Ordinal col.
Proof.
  revert mo co io j.
  induction ms as [| m ms IH]; intros mo co io j H Hcol.
  - discriminate.
  - destruct j as [| j]; simpl in H.
    + injection H as <-. unfold tabledesc.newMutation in Hcol.
      destruct (Descriptor_ m); simpl in Hcol; try discriminate.
      injection Hcol as <-. simpl. lia.
    + destruct (Descriptor_ m); apply IH in H; auto; lia.
Qed.

Lemma mutations_column_ordinal_mono ms mo co io (j1 j2 : nat) m1 m2 c1 c2 :
  (j1 < j2)%nat ->
  tabledesc.mutations ms mo co io !! j1 = Some m1 ->
  tabledesc.mutations ms mo co io !! j2 = Some m2 ->
  Mutation.AsColumn m1 = Some c1 ->
  Mutation.AsColumn m2 = Some c2 ->
  Column.Ordinal c1 < Column.Ordinal c2.
Proof.
  revert mo co io j1 j2.
  induction ms as [| m ms IH]; intros mo co io j1 j2 Hlt H1 H2 Hc1 Hc2.
  - discriminate.
  - destruct j2 as [| j2]; [lia |].
    destruct j1 as [| j1]; simpl in H1, H2.
    + injection H1 as <-. unfold tabledesc.newMutation in Hc1.
      destruct (Descriptor_ m); simpl in Hc1; try discriminate.
      injection Hc1 as <-. simpl.
      pose proof (mutations_column_ordinal_lower _ _ _ _ _ _ _ H2 Hc2). lia.
    + destruct (Descriptor_ m);
        (eapply IH; [| exact H1 | exact H2 | exact Hc1 | exact Hc2]; lia).
Qed.
(** C7. For every table descriptor: an index's ordinal is its position in
    the collection of all indexes; the primary index is there, at ordinal
    0, and is the only index at ordinal 0; the public non-primary indexes
    are exactly the indexes with an ordinal in [1, 1+k), k their number,
    and every ordinal of that range is taken; the indexes in a mutation are
    exactly those with an ordinal from 1+k on, and they are the indexes of
    the mutation queue, in queue order (a mutation's ordinal is its
    position in the queue, and an index queued later has a larger ordinal).
    In the same way the public columns are exactly the columns with an
    ordinal in [0, n), n their number, every ordinal of the range is taken,
    and the columns in a mutation follow in queue order. *)
Theorem ordinal_contiguity :
  forall desc : TableDescriptor,
    (forall (i : nat) idx,
        tabledesc.AllIndexes desc !! i = Some idx ->
        Index.Ordinal idx = Z.of_nat i)
    /\ (exists p,
           tabledesc.AllIndexes desc !! 0%nat = Some p
           /\ Index.Primary p = true
           /\ Index.Ordinal p = 0
           /\ Index.IndexDesc p = PrimaryIndex desc)
    /\ (forall idx,
           In idx (tabledesc.AllIndexes desc) ->
           (Index.Primary idx = true <-> Index.Ordinal idx = 0))
    /\ (forall idx,
           In idx (tabledesc.AllIndexes desc) ->
           (Index.Public idx = true /\ Index.Primary idx = false
            <-> 1 <= Index.Ordinal idx
                < 1 + tabledesc.publicNonPrimaryCount desc))
    /\ (forall o,
           1 <= o < 1 + tabledesc.publicNonPrimaryCount desc ->
           exists idx,
             In idx (tabledesc.AllIndexes desc) /\ Index.Ordinal idx = o)
    /\ (forall idx,
           In idx (tabledesc.AllIndexes desc) ->
           (TableElementMaybeMutation.IsMutation idx = true
            <-> 1 + tabledesc.publicNonPrimaryCount desc
                <= Index.Ordinal idx))
    /\ List.filter
         (fun idx : Index.t => TableElementMaybeMutation.IsMutation idx)
         (tabledesc.AllIndexes desc)
       = omap Mutation.AsIndex (tabledesc.AllMutations desc)
    /\ (forall (j : nat) m,
           tabledesc.AllMutations desc !! j = Some m ->
           Mutation.MutationOrdinal m = Z.of_nat j)
    /\ (forall m1 m2 idx1 idx2,
           In m1 (tabledesc.AllMutations desc) ->
           In m2 (tabledesc.AllMutations desc) ->
           Mutation.AsIndex m1 = Some idx1 ->
           Mutation.AsIndex m2 = Some idx2 ->
           Mutation.MutationOrdinal m1 < Mutation.MutationOrdinal m2 ->
           Index.Ordinal idx1 < Index.Ordinal idx2)
    /\ (forall (i : nat) col,
           tabledesc.AllColumns desc !! i = Some col ->
           Column.Ordinal col = Z.of_nat i)
    /\ (forall col,
           In col (tabledesc.AllColumns desc) ->
           (Column.Public col = true
            <-> 0 <= Column.Ordinal col < tabledesc.publicColumnCount desc))
    /\ (forall o,
           0 <= o < tabledesc.publicColumnCount desc ->
           exists col,
             In col (tabledesc.AllColumns desc) /\ Column.Ordinal col = o)
    /\ (forall col,
           In col (tabledesc.AllColumns desc) ->
           (TableElementMaybeMutation.IsMutation col = true
            <-> tabledesc.publicColumnCount desc <= Column.Ordinal col))
    /\ List.filter
         (fun col : Column.t => TableElementMaybeMutation.IsMutation col)
         (tabledesc.AllColumns desc)
       = omap Mutation.AsColumn (tabledesc.AllMutations desc)
    /\ (forall m1 m2 col1 col2,
           In m1 (tabledesc.AllMutations desc) ->
           In m2 (tabledesc.AllMutations desc) ->
           Mutation.AsColumn m1 = Some col1 ->
           Mutation.AsColumn m2 = Some col2 ->
           Mutation.MutationOrdinal m1 < Mutation.MutationOrdinal m2 ->
           Column.Ordinal col1 < Column.Ordinal col2).
Proof.
  intros desc.
  rewrite publicNonPrimaryCount_Indexes, publicColumnCount_Columns.
  assert (Hmut : forall m,
             In m (tabledesc.AllMutations desc) ->
             exists j : nat,
               tabledesc.AllMutations desc !! j = Some m
               /\ Mutation.MutationOrdinal m = Z.of_nat j).
  { intros m H. apply In_lookup in H. destruct H as [j H].
    exists j. split; [exact H |]. apply mutations_lookup in H.
    destruct H as (m' & _ & _ & ->). lia. }
  assert (Hidx : forall idx,
             In idx (tabledesc.AllIndexes desc) ->
             exists i : nat,
               tabledesc.AllIndexes desc !! i = Some idx
               /\ Index.Ordinal idx = Z.of_nat i).
  { intros idx H. apply In_lookup in H. destruct H as [i H].
    exists i. split; [exact H |]. apply (AllIndexes_lookup _ _ _ H). }
  assert (Hcol : forall col,
             In col (tabledesc.AllColumns desc) ->
             exists i : nat,
               tabledesc.AllColumns desc !! i = Some col
               /\ Column.Ordinal col = Z.of_nat i).
  { intros col H. apply In_lookup in H. destruct H as [i H].
    exists i. split; [exact H |]. apply (AllColumns_lookup _ _ _ H). }
  repeat match goal with |- _ /\ _ => split end.
  - intros i idx H. apply (AllIndexes_lookup _ _ _ H).
  - eexists. split; [reflexivity |]. simpl. auto.
  - intros idx H. destruct (Hidx idx H) as (i & Hi & Ho).
    destruct (AllIndexes_lookup _ _ _ Hi)
      as (_ & _ & [(-> & Hp & _) | [(Hr & Hp & _) | (Hr & Hp & _)]]);
      rewrite Hp, Ho; split; try discriminate; try reflexivity; lia.
  - intros idx H. destruct (Hidx idx H) as (i & Hi & Ho).
    destruct (AllIndexes_lookup _ _ _ Hi)
      as (_ & Hpub & [(-> & Hp & He & _)
                     | [(Hr & Hp & He) | (Hr & Hp & m & _ & He)]]);
      rewrite Hpub, Hp, Ho, He; simpl; split;
      try (intros [? ?]; discriminate); try (intros _; split; reflexivity);
      lia.
  - intros o Ho.
    destruct (Indexes desc !! (Z.to_nat o - 1)%nat) as [d |] eqn:E.
    + exists (tabledesc.newIndex tabledesc.publicElement d o false).
      split; [| reflexivity].
      apply In_lookup. exists (Z.to_nat o).
      unfold tabledesc.AllIndexes.
      replace (Z.to_nat o) with (S (Z.to_nat o - 1)) by lia. simpl.
      apply lookup_app_Some. left.
      rewrite publicIndexes_lookup, E. simpl. do 2 f_equal. lia.
    + apply lookup_ge_None in E. lia.
  - intros idx H. destruct (Hidx idx H) as (i & Hi & Ho).
    destruct (AllIndexes_lookup _ _ _ Hi)
      as (_ & _ & [(-> & _ & He & _)
                  | [(Hr & _ & He) | (Hr & _ & m & _ & He)]]);
      rewrite Ho, He; simpl; split;
      try discriminate; try reflexivity; lia.
  - apply mutation_indexes_queue.
  - intros j m H. apply mutations_lookup in H.
    destruct H as (m' & _ & _ & ->). lia.
  - intros m1 m2 idx1 idx2 H1 H2 Hi1 Hi2 Hlt.
    destruct (Hmut m1 H1) as (j1 & Hj1 & Ho1).
    destruct (Hmut m2 H2) as (j2 & Hj2 & Ho2).
    unfold tabledesc.AllMutations in Hj1, Hj2.
    eapply (mutations_index_ordinal_mono _ _ _ _ j1 j2 m1 m2); eauto. lia.
  - intros i col H. apply (AllColumns_lookup _ _ _ H).
  - intros col H. destruct (Hcol col H) as (i & Hi & Ho).
    destruct (AllColumns_lookup _ _ _ Hi)
      as (_ & Hpub & [(Hr & He) | (Hr & m & _ & He)]);
      rewrite Hpub, Ho, He; simpl; split;
      try discriminate; try reflexivity; lia.
  - intros o Ho.
    destruct (Columns desc !! Z.to_nat o) as [d |] eqn:E.
    + exists (tabledesc.newColumn tabledesc.publicElement d o).
      split; [| reflexivity].
      apply In_lookup. exists (Z.to_nat o).
      unfold tabledesc.AllColumns.
      apply lookup_app_Some. left.
      rewrite publicColumns_lookup, E. simpl. do 2 f_equal. lia.
    + apply lookup_ge_None in E. lia.
  - intros col H. destruct (Hcol col H) as (i & Hi & Ho).
    destruct (AllColumns_lookup _ _ _ Hi)
      as (_ & _ & [(Hr & He) | (Hr & m & _ & He)]);
      rewrite Ho, He; simpl; split;
      try discriminate; try reflexivity; lia.
  - apply mutation_columns_queue.
  - intros m1 m2 col1 col2 H1 H2 Hc1 Hc2 Hlt.
    destruct (Hmut m1 H1) as (j1 & Hj1 & Ho1).
    destruct (Hmut m2 H2) as (j2 & Hj2 & Ho2).
    unfold tabledesc.AllMutations in Hj1, Hj2.
    eapply (mutations_column_ordinal_mono _ _ _ _ j1 j2 m1 m2); eauto. lia.
Qed.

Lemma ordinal_contiguity_witness :
  Index.Ordinal sample.i3 = 3
  /\ (1 <= Index.Ordinal sample.i2
      < 1 + tabledesc.publicNonPrimaryCount sample.table)
  /\ 1 + tabledesc.publicNonPrimaryCount sample.table
     <= Index.Ordinal sample.i4
  /\ Index.Ordinal sample.i3 < Index.Ordinal sample.i4.
Proof.
  pose proof (ordinal_contiguity sample.table)
    as (Hpos & _ & _ & Hpub & _ & Hmut & _ & _ & Hqueue & _).
  split; [| split; [| split]].
  - exact (Hpos 3%nat sample.i3 eq_refl).
  - apply (Hpub sample.i2).
    + simpl. auto.
    + split; reflexivity.
  - apply (Hmut sample.i4).
    + simpl. auto 6.
    + reflexivity.
  - apply (Hqueue
             (tabledesc.newMutation
                (sample.queued (Mutation_Index (sample.indexDesc 4 "i3" ""))
                   DELETE_ONLY DROP 2) 1 3 3)
             (tabledesc.newMutation
                (sample.queued (Mutation_Index (sample.indexDesc 5 "i4" ""))
                   BACKFILLING ADD 3) 3 3 4)).
    + simpl. auto.
    + simpl. auto 6.
    + reflexivity.
    + reflexivity.
    + reflexivity.
Defined.

(** ** The mutation status of the elements *)

Lemma omap_In {A B : Type} (f : A -> option B) (l : list A) (y : B) :
  In y (omap f l) -> exists x, In x l /\ f x = Some y.
Proof.
  intros H. apply list_elem_of_In, list_elem_of_omap in H.
  destruct H as (x & Hx & Hf). exists x.
  split; [apply list_elem_of_In; exact Hx | exact Hf].
Qed.

(** Every element of a descriptor has the public status or the status of a
    queued mutation. *)
Lemma AllElements_status desc e :
  In e (tabledesc.AllElements desc) ->
  e = tabledesc.publicElement \/ exists m, e = tabledesc.mutationElement m.
Proof.
  unfold tabledesc.AllElements. intros H.
  repeat (apply in_app_or in H; destruct H as [H | H]);
    apply in_map_iff in H; destruct H as (x & <- & H).
  - apply In_lookup in H. destruct H as [i H].
    destruct (AllIndexes_lookup _ _ _ H)
      as (_ & _ & [(_ & _ & He & _) | [(_ & _ & He) | (_ & _ & m & _ & He)]]);
      rewrite He; eauto.
  - apply In_lookup in H. destruct H as [i H].
    destruct (AllColumns_lookup _ _ _ H)
      as (_ & _ & [(_ & He) | (_ & m & _ & He)]); rewrite He; eauto.
  - apply mutations_In in H. destruct H as (m & mo & co & io & ->).
    right. exists m. apply newMutation_views.
  - apply omap_In in H. destruct H as (mut & H & Hx).
    apply mutations_In in H. destruct H as (m & mo & co & io & ->).
    right. exists m. apply (newMutation_views m mo co io). exact Hx.
  - apply omap_In in H. destruct H as (mut & H & Hx).
    apply mutations_In in H. destruct H as (m & mo & co & io & ->).
    right. exists m. apply (newMutation_views m mo co io). exact Hx.
  - apply omap_In in H. destruct H as (mut & H & Hx).
    apply mutations_In in H. destruct H as (m & mo & co & io & ->).
    right. exists m. apply (newMutation_views m mo co io). exact Hx.
  - apply omap_In in H. destruct H as (mut & H & Hx).
    apply mutations_In in H. destruct H as (m & mo & co & io & ->).
    right. exists m. apply (newMutation_views m mo co io). exact Hx.
Qed.

(** C6. For every table element of a descriptor (index, column, mutation
    or typed view of a mutation): if it is a mutation its mutation id is
    not the invalid sentinel, if it is not a mutation its mutation id is the
    invalid sentinel, and an element that is not a mutation (a public one)
    reports none of the sub-phase flags DeleteOnly, WriteAndDeleteOnly,
    Backfilling and Merging.  The indexes and columns for which [Public()]
    is true are the ones that are not mutations. *)
Theorem mutation_status_exclusive :
  forall desc : TableDescriptor,
    (forall e : TableElementMaybeMutation.t,
        In e (tabledesc.AllElements desc) ->
        (TableElementMaybeMutation.IsMutation e = true ->
         TableElementMaybeMutation.MutationID e <> InvalidMutationID)
        /\ (TableElementMaybeMutation.IsMutation e = false ->
            TableElementMaybeMutation.MutationID e = InvalidMutationID)
        /\ (TableElementMaybeMutation.IsMutation e = false ->
            TableElementMaybeMutation.DeleteOnly e = false
            /\ TableElementMaybeMutation.WriteAndDeleteOnly e = false
            /\ TableElementMaybeMutation.Backfilling e = false
            /\ TableElementMaybeMutation.Merging e = false))
    /\ (forall idx : Index.t,
           In idx (tabledesc.AllIndexes desc) ->
           Index.Public idx
           = negb (TableElementMaybeMutation.IsMutation idx))
    /\ (forall col : Column.t,
           In col (tabledesc.AllColumns desc) ->
           Column.Public col
           = negb (TableElementMaybeMutation.IsMutation col)).
Proof.
  intros desc. split; [| split].
  - intros e H.
    destruct (AllElements_status desc e H) as [-> | [m ->]]; simpl.
    + split; [discriminate |]. split; auto.
    + split; [intros _; discriminate |]. split; discriminate.
  - intros idx H. apply In_lookup in H. destruct H as [i H].
    apply (AllIndexes_lookup _ _ _ H).
  - intros col H. apply In_lookup in H. destruct H as [i H].
    apply (AllColumns_lookup _ _ _ H).
Qed.

Lemma mutation_status_exclusive_witness :
  In (tabledesc.mutationElement
        (sample.queued
           (Mutation_Index (sample.indexDesc 4 "i3" "")) DELETE_ONLY DROP 2))
     (tabledesc.AllElements sample.table)
  /\ TableElementMaybeMutation.MutationID
       (tabledesc.mutationElement
          (sample.queued
             (Mutation_Index (sample.indexDesc 4 "i3" "")) DELETE_ONLY DROP 2))
     <> InvalidMutationID
  /\ In tabledesc.publicElement (tabledesc.AllElements sample.table)
  /\ TableElementMaybeMutation.MutationID tabledesc.publicElement
     = InvalidMutationID
  /\ TableElementMaybeMutation.DeleteOnly tabledesc.publicElement = false.
Proof.
  assert (H1 : In (tabledesc.mutationElement
                     (sample.queued
                        (Mutation_Index (sample.indexDesc 4 "i3" ""))
                        DELETE_ONLY DROP 2))
                  (tabledesc.AllElements sample.table)).
  { vm_compute. do 3 right. left. reflexivity. }
  assert (H2 : In tabledesc.publicElement
                  (tabledesc.AllElements sample.table)).
  { vm_compute. left. reflexivity. }
  pose proof (proj1 (mutation_status_exclusive sample.table)) as T.
  split; [exact H1 |].
  split; [exact (proj1 (T _ H1) eq_refl) |].
  split; [exact H2 |].
  split; [exact (proj1 (proj2 (T _ H2)) eq_refl) |].
  exact (proj1 (proj2 (proj2 (T _ H2)) eq_refl)).
Defined.

End Collections.

(** The primary index of a descriptor is not in a mutation. *)
Lemma primary_index_public raw idx :
  In idx (tabledesc.AllIndexes raw) ->
  Index.Primary idx = true ->
  TableElementMaybeMutation.Adding idx = false
  /\ TableElementMaybeMutation.Dropped idx = false.
Proof.
  intros H Hp. apply In_lookup in H. destruct H as [i H].
  destruct (AllIndexes_lookup _ _ _ H)
    as (_ & _ & [(_ & _ & He & _) | [(_ & Hp' & _) | (_ & Hp' & _)]]);
    [rewrite He; split; reflexivity | congruence | congruence].
Qed.

(** C3. An index of the all-indexes collection is in the search set of
    [ForEachIndex] and [FindIndex], which are the traversal and the search
    of the indexes of the collection that [isIndexInSearchSet] keeps, if and
    only if none of the following holds: the index is primary, the table is
    not physical and the non-physical-primary-index option is unset; the
    index is in an add mutation and the add-mutations option is unset; the
    index is in a drop mutation and the drop-mutations option is unset.  In
    particular the primary index of a physical table is always in the search
    set. *)
Theorem search_set_membership :
  forall (desc : TableDescriptor.t) (opts : IndexOpts.t) (idx : Index.t),
    (isIndexInSearchSet desc opts idx = true
     <-> ~ (Index.Primary idx = true
            /\ TableDescriptor.IsPhysicalTable desc = false
            /\ IndexOpts.NonPhysicalPrimaryIndex opts = false)
         /\ ~ (TableElementMaybeMutation.Adding idx = true
               /\ IndexOpts.AddMutations opts = false)
         /\ ~ (TableElementMaybeMutation.Dropped idx = true
               /\ IndexOpts.DropMutations opts = false))
    /\ (forall (error : Type) (Done : error -> bool) (St : Type)
               (f : visitor error St) (st : St),
           ForEachIndex Done desc opts f st
           = forEachIndex Done
               (List.filter (isIndexInSearchSet desc opts)
                  (TableDescriptor.AllIndexes desc)) f st)
    /\ (forall test : Index.t -> bool,
           FindIndex desc opts test
           = findIndex
               (List.filter (isIndexInSearchSet desc opts)
                  (TableDescriptor.AllIndexes desc)) test)
    /\ (forall raw : descpb.TableDescriptor,
           TableDescriptor.AllIndexes desc = tabledesc.AllIndexes raw ->
           In idx (TableDescriptor.AllIndexes desc) ->
           TableDescriptor.IsPhysicalTable desc = true ->
           Index.Primary idx = true ->
           isIndexInSearchSet desc opts idx = true).
Proof.
  intros desc opts idx.
  split; [apply isIndexInSearchSet_true_iff |].
  split; [intros; apply ForEachIndex_range_filter |].
  split.
  - intros test. unfold FindIndex.
    rewrite FindIndex_range_findIndex, findIndex_filter. reflexivity.
  - intros raw Hall Hin Hphys Hprim. rewrite Hall in Hin.
    destruct (primary_index_public raw idx Hin Hprim) as [Ha Hd].
    apply isIndexInSearchSet_true_iff. rewrite Hphys, Ha, Hd.
    repeat split; intros H; decompose [and] H; discriminate.
Qed.

Lemma search_set_membership_witness :
  exists idx : Index.t,
    TableDescriptor.AllIndexes (sample.descriptor true) !! 0%nat = Some idx
    /\ Index.Primary idx = true
    /\ isIndexInSearchSet (sample.descriptor true) sample.noOpts idx = true.
Proof.
  eexists. split; [reflexivity |]. split; [reflexivity |].
  apply (proj2 (proj2 (proj2
           (search_set_membership (sample.descriptor true) sample.noOpts _)))
           sample.table).
  - reflexivity.
  - left. reflexivity.
  - reflexivity.
  - reflexivity.
Defined.

(** ** Search *)

Lemma findIndex_first_match slice test :
  first_match slice test (findIndex slice test).
Proof.
  induction slice as [| a l [IH1 IH2]]; simpl.
  - split.
    + intros idx. split; [discriminate |].
      intros (pre & post & H & _). destruct pre; discriminate.
    + split; [intros _ y [] | reflexivity].
  - destruct (test a) eqn:Ta.
    + split.
      * intros idx. split.
        -- intros H. inversion H; subst idx.
           exists [], l. repeat split; [exact Ta | intros y []].
        -- intros (pre & post & H & Ti & Hpre).
           destruct pre as [| b pre]; simpl in H; injection H as Hab Hl.
           ++ rewrite Hab. reflexivity.
           ++ rewrite (Hpre a (or_introl (eq_sym Hab))) in Ta. discriminate.
      * split; [discriminate |].
        intros H. rewrite (H a (or_introl eq_refl)) in Ta. discriminate.
    + split.
      * intros idx. split.
        -- intros H. apply IH1 in H.
           destruct H as (pre & post & -> & Ti & Hpre).
           exists (a :: pre), post. repeat split; [exact Ti |].
           intros y [<- | Hy]; [exact Ta | apply Hpre; exact Hy].
        -- intros (pre & post & H & Ti & Hpre).
           destruct pre as [| b pre]; simpl in H; injection H as Hab Hl.
           ++ rewrite <- Hab, Ta in Ti. discriminate.
           ++ apply IH1. exists pre, post.
              split; [exact Hl |]. split; [exact Ti |].
              intros y Hy. apply Hpre. right. exact Hy.
      * split.
        -- intros H y [<- | Hy]; [exact Ta | apply IH2; assumption].
        -- intros H. apply IH2. intros y Hy. apply H. right. exact Hy.
Qed.

(** C4. [FindIndex] returns the first index of the all-indexes collection,
    in the order of the collection, that is in the search set and satisfies
    the test, and nil when no index of the search set satisfies the test;
    each per-view Find* function returns the first index of its view that
    satisfies the test, and nil when no index of the view does. *)
Theorem Find_returns_first_match :
  forall (desc : TableDescriptor.t) (test : Index.t -> bool),
    (forall opts : IndexOpts.t,
        first_match (TableDescriptor.AllIndexes desc)
          (fun idx => isIndexInSearchSet desc opts idx && test idx)
          (FindIndex desc opts test))
    /\ first_match (TableDescriptor.ActiveIndexes desc) test
         (FindActiveIndex desc test)
    /\ first_match (TableDescriptor.NonDropIndexes desc) test
         (FindNonDropIndex desc test)
    /\ first_match (TableDescriptor.PartialIndexes desc) test
         (FindPartialIndex desc test)
    /\ first_match (TableDescriptor.PublicNonPrimaryIndexes desc) test
         (FindPublicNonPrimaryIndex desc test)
    /\ first_match (TableDescriptor.WritableNonPrimaryIndexes desc) test
         (FindWritableNonPrimaryIndex desc test)
    /\ first_match (TableDescriptor.DeletableNonPrimaryIndexes desc) test
         (FindDeletableNonPrimaryIndex desc test)
    /\ first_match (TableDescriptor.NonPrimaryIndexes desc) test
         (FindNonPrimaryIndex desc test)
    /\ first_match (TableDescriptor.DeleteOnlyNonPrimaryIndexes desc) test
         (FindDeleteOnlyNonPrimaryIndex desc test).
Proof.
  intros desc test. split.
  - intros opts. unfold FindIndex. rewrite FindIndex_range_findIndex.
    apply findIndex_first_match.
  - repeat split; apply findIndex_first_match.
Qed.

Lemma Find_returns_first_match_witness :
  FindIndex (sample.descriptor true) sample.allOpts
    (fun idx => TableElementMaybeMutation.IsMutation idx)
  = Some sample.i3
  /\ FindIndex (sample.descriptor true) sample.noOpts
       (fun idx => TableElementMaybeMutation.IsMutation idx)
     = None
  /\ FindNonPrimaryIndex (sample.descriptor true) Index.IsPartial
     = Some sample.i2.
Proof.
  pose proof (Find_returns_first_match (sample.descriptor true)) as T.
  split; [| split].
  - destruct (T (fun idx => TableElementMaybeMutation.IsMutation idx))
      as [F _].
    apply (proj1 (F sample.allOpts)).
    exists [tabledesc.newIndex tabledesc.publicElement
              (sample.indexDesc 1 "primary" "") 0 true;
            sample.i1; sample.i2], [sample.i4].
    split; [reflexivity |]. split; [reflexivity |].
    intros y [<- | [<- | [<- | []]]]; reflexivity.
  - destruct (T (fun idx => TableElementMaybeMutation.IsMutation idx))
      as [F _].
    apply (proj2 (F sample.noOpts)).
    intros y [<- | [<- | [<- | [<- | [<- | []]]]]]; reflexivity.
  - destruct (T Index.IsPartial) as (_ & _ & _ & _ & _ & _ & _ & F & _).
    apply (proj1 F).
    exists [sample.i1], [sample.i3; sample.i4].
    split; [reflexivity |]. split; [reflexivity |].
    intros y [<- | []]; reflexivity.
Defined.

(** ** Traversal with early termination *)

Section Traversal.

Context {error : Type} (Done : error -> bool).

Lemma forEachIndex_all_nil {St : Type} (g : visitor error St) slice st st' :
  all_nil g slice st = Some st' ->
  forEachIndex Done slice g st = (None, st').
Proof.
  revert st. induction slice as [| idx rest IH]; intros st H; simpl in *.
  - congruence.
  - destruct (g idx st) as [[err |] st1]; [discriminate | apply IH, H].
Qed.

Lemma forEachIndex_first_error {St : Type} (g : visitor error St)
  pre x post st st1 st2 err :
  all_nil g pre st = Some st1 ->
  g x st1 = (Some err, st2) ->
  forEachIndex Done (pre ++ x :: post) g st
  = (if Done err then None else Some err, st2).
Proof.
  revert st. induction pre as [| idx pre IH]; intros st H Hx; simpl in *.
  - injection H as <-. rewrite Hx. destruct (Done err); reflexivity.
  - destruct (g idx st) as [[err' |] st']; [discriminate |].
    apply IH; assumption.
Qed.

Lemma all_nil_record {St : Type} (f : visitor error St) l log st st' :
  all_nil f l st = Some st' ->
  all_nil (record f) l (log, st) = Some (log ++ l, st').
Proof.
  revert log st. induction l as [| idx rest IH]; intros log st H; simpl in *.
  - rewrite app_nil_r. congruence.
  - destruct (f idx st) as [[err |] st1]; [discriminate |].
    rewrite (IH (log ++ [idx]) st1 H), <- app_assoc. reflexivity.
Qed.

Lemma forEachIndex_traverses slice :
  traverses_with_early_stop Done slice
    (fun St => @forEachIndex error Done St slice).
Proof.
  intros St f st. split.
  - intros st' H. split.
    + apply forEachIndex_all_nil, H.
    + apply forEachIndex_all_nil.
      apply (all_nil_record f slice [] st st' H).
  - intros pre x post st1 st2 err -> Hpre Hx result. split.
    + apply (forEachIndex_first_error f pre x post st st1 st2 err Hpre Hx).
    + apply (forEachIndex_first_error (record f) pre x post
               ([], st) (pre, st1) (pre ++ [x], st2) err).
      * apply (all_nil_record f pre [] st st1 Hpre).
      * simpl. rewrite Hx. reflexivity.
Qed.

(** C2. [ForEachIndex] traverses the indexes of the all-indexes collection
    that are in the search set, and each per-view ForEach* function the
    indexes of its view, in the order of the collection: the callback is
    called on the elements in order; when it returns the early-termination
    signal on an element the traversal stops right after that element and
    returns nil; when it returns any other error the traversal stops right
    after that element and returns that error; when it returns nil on every
    element the traversal visits them all and returns nil. *)
Theorem ForEach_early_termination :
  forall desc : TableDescriptor.t,
    (forall opts : IndexOpts.t,
        traverses_with_early_stop Done
          (List.filter (isIndexInSearchSet desc opts)
             (TableDescriptor.AllIndexes desc))
          (fun St => @ForEachIndex error Done St desc opts))
    /\ traverses_with_early_stop Done (TableDescriptor.ActiveIndexes desc)
         (fun St => @ForEachActiveIndex error Done St desc)
    /\ traverses_with_early_stop Done (TableDescriptor.NonDropIndexes desc)
         (fun St => @ForEachNonDropIndex error Done St desc)
    /\ traverses_with_early_stop Done (TableDescriptor.PartialIndexes desc)
         (fun St => @ForEachPartialIndex error Done St desc)
    /\ traverses_with_early_stop Done (TableDescriptor.NonPrimaryIndexes desc)
         (fun St => @ForEachNonPrimaryIndex error Done St desc)
    /\ traverses_with_early_stop Done
         (TableDescriptor.PublicNonPrimaryIndexes desc)
         (fun St => @ForEachPublicNonPrimaryIndex error Done St desc)
    /\ traverses_with_early_stop Done
         (TableDescriptor.WritableNonPrimaryIndexes desc)
         (fun St => @ForEachWritableNonPrimaryIndex error Done St desc)
    /\ traverses_with_early_stop Done
         (TableDescriptor.DeletableNonPrimaryIndexes desc)
         (fun St => @ForEachDeletableNonPrimaryIndex error Done St desc)
    /\ traverses_with_early_stop Done
         (TableDescriptor.DeleteOnlyNonPrimaryIndexes desc)
         (fun St => @ForEachDeleteOnlyNonPrimaryIndex error Done St desc).
Proof.
  intros desc. split.
  - intros opts St f st.
    unfold ForEachIndex. rewrite !ForEachIndex_range_filter.
    apply forEachIndex_traverses.
  - repeat (split; [exact (forEachIndex_traverses _) |]).
    exact (forEachIndex_traverses _).
Qed.

End Traversal.

Lemma ForEach_early_termination_witness :
  ForEachNonPrimaryIndex sample.Done (sample.descriptor true)
    (record (sample.visit 3 sample.StopIteration)) ([], 0%nat)
  = (None, ([sample.i1; sample.i2], 2%nat))
  /\ ForEachNonPrimaryIndex sample.Done (sample.descriptor true)
       (record (sample.visit 3 (sample.Failure "boom"))) ([], 0%nat)
     = (Some (sample.Failure "boom"), ([sample.i1; sample.i2], 2%nat))
  /\ ForEachNonPrimaryIndex sample.Done (sample.descriptor true)
       (record (sample.visit 99 sample.StopIteration)) ([], 0%nat)
     = (None, ([sample.i1; sample.i2; sample.i3; sample.i4], 4%nat)).
Proof.
  destruct (ForEach_early_termination sample.Done (sample.descriptor true))
    as (_ & _ & _ & _ & T & _).
  split; [| split].
  - destruct (T nat (sample.visit 3 sample.StopIteration) 0%nat) as [_ T2].
    exact (proj2 (T2 [sample.i1] sample.i2 [sample.i3; sample.i4]
                    1%nat 2%nat sample.StopIteration
                    eq_refl eq_refl eq_refl)).
  - destruct (T nat (sample.visit 3 (sample.Failure "boom")) 0%nat)
      as [_ T2].
    exact (proj2 (T2 [sample.i1] sample.i2 [sample.i3; sample.i4]
                    1%nat 2%nat (sample.Failure "boom")
                    eq_refl eq_refl eq_refl)).
  - destruct (T nat (sample.visit 99 sample.StopIteration) 0%nat) as [T1 _].
    exact (proj2 (T1 4%nat eq_refl)).
Defined.

(** ** Type versions of the user-defined-type columns *)

(** The three outcomes of the loop, by what it met: a version mismatch at a
    position both slices have; or no mismatch and a counterpart for every
    remaining column of the first slice; or no mismatch at the common
    positions and a column of the first slice without counterpart. *)
Lemma UserDefinedTypeColsHaveSameVersion_range_cases i thisCols otherCols :
  match UserDefinedTypeColsHaveSameVersion_range i thisCols otherCols with
  | Returns false =>
      exists (j : nat) c c',
        thisCols !! j = Some c
        /\ otherCols !! (i + j)%nat = Some c'
        /\ typeVersion c <> typeVersion c'
  | Returns true =>
      forall (j : nat) c,
        thisCols !! j = Some c ->
        exists c',
          otherCols !! (i + j)%nat = Some c' /\ typeVersion c = typeVersion c'
  | PanicIndexOutOfRange =>
      (length otherCols < i + length thisCols)%nat
      /\ forall (j : nat) c c',
           thisCols !! j = Some c ->
           otherCols !! (i + j)%nat = Some c' ->
           typeVersion c = typeVersion c'
  end.
Proof.
  revert i. induction thisCols as [| thisCol rest IH]; intros i; simpl.
  - intros j c H. discriminate.
  - destruct (otherCols !! i) as [otherCol |] eqn:E.
    + fold (typeVersion thisCol). fold (typeVersion otherCol).
      destruct (N.eqb_spec (typeVersion thisCol) (typeVersion otherCol))
        as [Heq | Hne]; simpl.
      * specialize (IH (S i)).
        destruct (UserDefinedTypeColsHaveSameVersion_range (S i) rest
                    otherCols) as [[|] |].
        -- intros [| j] c H; simpl in H.
           ++ injection H as <-. exists otherCol.
              rewrite Nat.add_0_r. auto.
           ++ destruct (IH j c H) as (c' & Hc' & Hv). exists c'.
              rewrite Nat.add_succ_r. auto.
        -- destruct IH as (j & c & c' & Hj & Hc' & Hv).
           exists (S j), c, c'. rewrite Nat.add_succ_r. auto.
        -- destruct IH as [Hlen Hagree]. split; [lia |].
           intros [| j] c c' H H'; simpl in H.
           ++ injection H as <-. rewrite Nat.add_0_r, E in H'.
              injection H' as <-. exact Heq.
           ++ rewrite Nat.add_succ_r in H'. exact (Hagree j c c' H H').
      * exists 0%nat, thisCol, otherCol. rewrite Nat.add_0_r. auto.
    + apply lookup_ge_None in E. split; [lia |].
      intros j c c' _ H'. apply lookup_lt_Some in H'. lia.
Qed.

(** The loop reads the second slice only at the positions of the first. *)
Lemma UserDefinedTypeColsHaveSameVersion_range_ext
  i thisCols otherCols otherCols' :
  (forall j : nat,
      (j < length thisCols)%nat ->
      otherCols' !! (i + j)%nat = otherCols !! (i + j)%nat) ->
  UserDefinedTypeColsHaveSameVersion_range i thisCols otherCols'
  = UserDefinedTypeColsHaveSameVersion_range i thisCols otherCols.
Proof.
  revert i. induction thisCols as [| thisCol rest IH]; intros i H; simpl.
  - reflexivity.
  - pose proof (H 0%nat ltac:(simpl; lia)) as H0.
    rewrite Nat.add_0_r in H0. rewrite H0.
    destruct (otherCols !! i) as [otherCol |]; [| reflexivity].
    rewrite IH; [reflexivity |].
    intros j Hj. specialize (H (S j) ltac:(simpl; lia)).
    rewrite Nat.add_succ_r in H. exact H.
Qed.

(** C5. [UserDefinedTypeColsHaveSameVersion] returns false if at some
    position of the two user-defined-type column lists the type-metadata
    versions of the two columns differ, and returns true when at every
    position of the first descriptor's list the second descriptor has a
    column with the same version. *)
Theorem UserDefinedTypeColsHaveSameVersion_compares_positions :
  forall desc otherDesc : TableDescriptor.t,
    (forall (i : nat) c c',
        TableDescriptor.UserDefinedTypeColumns desc !! i = Some c ->
        TableDescriptor.UserDefinedTypeColumns otherDesc !! i = Some c' ->
        typeVersion c <> typeVersion c' ->
        UserDefinedTypeColsHaveSameVersion desc otherDesc = Returns false)
    /\ ((forall (i : nat) c,
            TableDescriptor.UserDefinedTypeColumns desc !! i = Some c ->
            exists c',
              TableDescriptor.UserDefinedTypeColumns otherDesc !! i = Some c'
              /\ typeVersion c = typeVersion c') ->
        UserDefinedTypeColsHaveSameVersion desc otherDesc = Returns true).
Proof.
  intros desc otherDesc. unfold UserDefinedTypeColsHaveSameVersion.
  pose proof (UserDefinedTypeColsHaveSameVersion_range_cases 0
                (TableDescriptor.UserDefinedTypeColumns desc)
                (TableDescriptor.UserDefinedTypeColumns otherDesc)) as C.
  simpl in C.
  destruct (UserDefinedTypeColsHaveSameVersion_range 0
              (TableDescriptor.UserDefinedTypeColumns desc)
              (TableDescriptor.UserDefinedTypeColumns otherDesc))
    as [[|] |]; split.
  - intros i c c' H H' Hne. destruct (C i c H) as (c'' & Hc'' & Hv).
    congruence.
  - reflexivity.
  - reflexivity.
  - intros H. destruct C as (j & c & c' & Hj & Hc' & Hv).
    destruct (H j c Hj) as (c'' & Hc'' & Hv'). congruence.
  - intros i c c' H H' Hne. destruct C as [_ C].
    elim Hne. exact (C i c c' H H').
  - intros H. destruct C as [Hlen _].
    destruct (lookup_lt_is_Some_2
                (TableDescriptor.UserDefinedTypeColumns desc)
                (length (TableDescriptor.UserDefinedTypeColumns otherDesc))
                ltac:(lia)) as [c Hc].
    destruct (H _ c Hc) as (c' & Hc' & _).
    apply lookup_lt_Some in Hc'. lia.
Qed.

Lemma UserDefinedTypeColsHaveSameVersion_compares_positions_witness :
  UserDefinedTypeColsHaveSameVersion
    (sample.withColumns [sample.column 1 0 7; sample.column 2 1 4])
    (sample.withColumns [sample.column 1 0 7; sample.column 2 1 5])
  = Returns false
  /\ UserDefinedTypeColsHaveSameVersion
       (sample.withColumns [sample.column 1 0 7; sample.column 2 1 4])
       (sample.withColumns [sample.column 1 0 7; sample.column 2 1 4])
     = Returns true.
Proof.
  split.
  - apply (proj1 (UserDefinedTypeColsHaveSameVersion_compares_positions
                    (sample.withColumns
                       [sample.column 1 0 7; sample.column 2 1 4])
                    (sample.withColumns
                       [sample.column 1 0 7; sample.column 2 1 5]))
             1%nat (sample.column 2 1 4) (sample.column 2 1 5)).
    + reflexivity.
    + reflexivity.
    + vm_compute. discriminate.
  - apply (proj2 (UserDefinedTypeColsHaveSameVersion_compares_positions
                    (sample.withColumns
                       [sample.column 1 0 7; sample.column 2 1 4])
                    (sample.withColumns
                       [sample.column 1 0 7; sample.column 2 1 4]))).
    intros [| [| i]] c H; simpl in H; try discriminate;
      injection H as <-; eexists; split; reflexivity.
Defined.

(** The claim that the function is free of out-of-range accesses only when
    the second list is at least as long as the first fails: with a second
    list of one column whose version differs from the first column of a
    first list of two, the function returns false at position 0 and never
    reads position 1. *)
Lemma shorter_second_list_without_panic :
  UserDefinedTypeColsHaveSameVersion
    (sample.withColumns [sample.column 1 0 1; sample.column 2 1 1])
    (sample.withColumns [sample.column 1 0 2])
  = Returns false
  /\ ~ (forall desc otherDesc : TableDescriptor.t,
           UserDefinedTypeColsHaveSameVersion desc otherDesc
           <> PanicIndexOutOfRange ->
           (length (TableDescriptor.UserDefinedTypeColumns desc)
            <= length (TableDescriptor.UserDefinedTypeColumns otherDesc))%nat).
Proof.
  split; [reflexivity |].
  intros H.
  specialize (H (sample.withColumns
                   [sample.column 1 0 1; sample.column 2 1 1])
                (sample.withColumns [sample.column 1 0 2])).
  simpl in H.
  assert (2 <= 1)%nat as Habs by (apply H; discriminate).
  lia.
Qed.

(** C10, amended. [UserDefinedTypeColsHaveSameVersion] is asymmetric in its
    arguments: it reads the second list at the positions of the first.  It
    performs no out-of-range access when the second list is at least as
    long as the first; it performs one exactly when the second list is
    shorter than the first and the versions agree at every position the two
    lists have in common (a mismatch found before the end of the second
    list makes it return false first).  Its outcome depends on the second
    list only through the positions of the first: trailing columns of the
    second list are never compared. *)
Theorem UserDefinedTypeColsHaveSameVersion_asymmetric :
  (exists desc otherDesc : TableDescriptor.t,
      UserDefinedTypeColsHaveSameVersion desc otherDesc
      <> UserDefinedTypeColsHaveSameVersion otherDesc desc)
  /\ forall desc otherDesc : TableDescriptor.t,
       ((length (TableDescriptor.UserDefinedTypeColumns desc)
         <= length (TableDescriptor.UserDefinedTypeColumns otherDesc))%nat ->
        UserDefinedTypeColsHaveSameVersion desc otherDesc
        <> PanicIndexOutOfRange)
       /\ (UserDefinedTypeColsHaveSameVersion desc otherDesc
           = PanicIndexOutOfRange
           <-> (length (TableDescriptor.UserDefinedTypeColumns otherDesc)
                < length (TableDescriptor.UserDefinedTypeColumns desc))%nat
               /\ forall (i : nat) c c',
                    TableDescriptor.UserDefinedTypeColumns desc !! i
                    = Some c ->
                    TableDescriptor.UserDefinedTypeColumns otherDesc !! i
                    = Some c' ->
                    typeVersion c = typeVersion c')
       /\ (forall otherDesc' : TableDescriptor.t,
              (forall i : nat,
                  (i < length (TableDescriptor.UserDefinedTypeColumns desc))
                    %nat ->
                  TableDescriptor.UserDefinedTypeColumns otherDesc' !! i
                  = TableDescriptor.UserDefinedTypeColumns otherDesc !! i) ->
              UserDefinedTypeColsHaveSameVersion desc otherDesc'
              = UserDefinedTypeColsHaveSameVersion desc otherDesc)
       /\ (forall (otherDesc' : TableDescriptor.t) (extra : list Column.t),
              TableDescriptor.UserDefinedTypeColumns otherDesc'
              = TableDescriptor.UserDefinedTypeColumns otherDesc ++ extra ->
              (length (TableDescriptor.UserDefinedTypeColumns desc)
               <= length (TableDescriptor.UserDefinedTypeColumns otherDesc))
                %nat ->
              UserDefinedTypeColsHaveSameVersion desc otherDesc'
              = UserDefinedTypeColsHaveSameVersion desc otherDesc).
Proof.
  split.
  { exists (sample.withColumns []), (sample.withColumns [sample.column 1 0 1]).
    discriminate. }
  intros desc otherDesc.
  unfold UserDefinedTypeColsHaveSameVersion.
  pose proof (UserDefinedTypeColsHaveSameVersion_range_cases 0
                (TableDescriptor.UserDefinedTypeColumns desc)
                (TableDescriptor.UserDefinedTypeColumns otherDesc)) as C.
  simpl in C.
  assert (P : UserDefinedTypeColsHaveSameVersion_range 0
                (TableDescriptor.UserDefinedTypeColumns desc)
                (TableDescriptor.UserDefinedTypeColumns otherDesc)
              = PanicIndexOutOfRange
              <-> (length (TableDescriptor.UserDefinedTypeColumns otherDesc)
                   < length (TableDescriptor.UserDefinedTypeColumns desc))%nat
                  /\ forall (i : nat) c c',
                       TableDescriptor.UserDefinedTypeColumns desc !! i
                       = Some c ->
                       TableDescriptor.UserDefinedTypeColumns otherDesc !! i
                       = Some c' ->
                       typeVersion c = typeVersion c').
  { destruct (UserDefinedTypeColsHaveSameVersion_range 0
                (TableDescriptor.UserDefinedTypeColumns desc)
                (TableDescriptor.UserDefinedTypeColumns otherDesc))
      as [[|] |]; split; try discriminate; try (intros _; exact C).
    - intros [Hlen _].
      destruct (lookup_lt_is_Some_2
                  (TableDescriptor.UserDefinedTypeColumns desc)
                  (length (TableDescriptor.UserDefinedTypeColumns otherDesc))
                  Hlen) as [c Hc].
      destruct (C _ c Hc) as (c' & Hc' & _).
      apply lookup_lt_Some in Hc'. lia.
    - intros [_ Hagree]. destruct C as (j & c & c' & Hj & Hc' & Hv).
      elim Hv. exact (Hagree j c c' Hj Hc').
    - reflexivity. }
  split; [| split; [exact P | split]].
  - intros Hlen Hp. apply P in Hp. lia.
  - intros otherDesc' H.
    apply UserDefinedTypeColsHaveSameVersion_range_ext. exact H.
  - intros otherDesc' extra -> Hlen.
    apply UserDefinedTypeColsHaveSameVersion_range_ext.
    intros j Hj. simpl. apply lookup_app_l. lia.
Qed.

Lemma UserDefinedTypeColsHaveSameVersion_asymmetric_witness :
  UserDefinedTypeColsHaveSameVersion
    (sample.withColumns [sample.column 1 0 7])
    (sample.withColumns [sample.column 1 0 7; sample.column 2 1 4])
  <> PanicIndexOutOfRange
  /\ UserDefinedTypeColsHaveSameVersion
       (sample.withColumns [sample.column 1 0 7])
       (sample.withColumns [sample.column 1 0 7; sample.column 2 1 4])
     = UserDefinedTypeColsHaveSameVersion
         (sample.withColumns [sample.column 1 0 7])
         (sample.withColumns [sample.column 1 0 7]).
Proof.
  split.
  - apply (proj1 (proj2 UserDefinedTypeColsHaveSameVersion_asymmetric
             (sample.withColumns [sample.column 1 0 7])
             (sample.withColumns
                [sample.column 1 0 7; sample.column 2 1 4]))).
    simpl. lia.
  - apply (proj2 (proj2 (proj2
             (proj2 UserDefinedTypeColsHaveSameVersion_asymmetric
                (sample.withColumns [sample.column 1 0 7])
                (sample.withColumns [sample.column 1 0 7]))))
             (sample.withColumns [sample.column 1 0 7; sample.column 2 1 4])
             [sample.column 2 1 4]).
    + reflexivity.
    + simpl. lia.
Defined.

(** ** The map from column id to ordinal *)

Lemma ColumnIDToOrdinalMap_fold_other (columns : list Column.t)
  (m : TableColMap) (id : descpb.ColumnID) :
  (forall c, In c columns -> Column.GetID c <> id) ->
  fold_left
    (fun m col => TableColMap_Set m (Column.GetID col) (Column.Ordinal col))
    columns m !! id
  = m !! id.
Proof.
  revert m. induction columns as [| col rest IH]; intros m H; simpl.
  - reflexivity.
  - rewrite IH by (intros c Hc; apply H; right; exact Hc).
    unfold TableColMap_Set. apply lookup_insert_ne.
    apply H. left. reflexivity.
Qed.

Lemma column_id_in_dec (columns : list Column.t) (id : descpb.ColumnID) :
  (exists c, In c columns /\ Column.GetID c = id)
  \/ (forall c, In c columns -> Column.GetID c <> id).
Proof.
  induction columns as [| a l [(c & Hc & Hid) | IH]].
  - right. intros c [].
  - left. exists c. split; [right; exact Hc | exact Hid].
  - destruct (N.eq_dec (Column.GetID a) id) as [Ha | Ha].
    + left. exists a. split; [left; reflexivity | exact Ha].
    + right. intros c [<- | Hc]; [exact Ha | apply IH, Hc].
Qed.

(** A column id that appears in a list has a last occurrence. *)
Lemma last_column_with_id (columns : list Column.t) (id : descpb.ColumnID) c :
  In c columns ->
  Column.GetID c = id ->
  exists pre col post,
    columns = pre ++ col :: post
    /\ Column.GetID col = id
    /\ forall c', In c' post -> Column.GetID c' <> id.
Proof.
  revert c. induction columns as [| a l IH]; intros c Hin Heq.
  - contradiction.
  - destruct (column_id_in_dec l id) as [(c0 & Hc0 & Hid0) | Hl].
    + destruct (IH c0 Hc0 Hid0) as (pre & col & post & -> & Hid & Hpost).
      exists (a :: pre), col, post. auto.
    + exists [], a, l. split; [reflexivity |]. split; [| exact Hl].
      destruct Hin as [<- | Hin]; [exact Heq |].
      elim (Hl c Hin). exact Heq.
Qed.

(** The claim that every id of the list is mapped to the ordinal of the
    column it appears on fails for a list in which two columns share an id:
    the later [Set] overwrites the earlier one. *)
Lemma shared_id_maps_to_last_ordinal :
  ColumnIDToOrdinalMap [sample.column 1 0 1; sample.column 1 5 1] !! 1%N
  = Some 5
  /\ ~ (forall (columns : list Column.t) (col : Column.t),
           In col columns ->
           ColumnIDToOrdinalMap columns !! Column.GetID col
           = Some (Column.Ordinal col)).
Proof.
  split; [reflexivity |].
  intros H.
  specialize (H [sample.column 1 0 1; sample.column 1 5 1]
                (sample.column 1 0 1) (or_introl eq_refl)).
  vm_compute in H. discriminate.
Qed.

(** C9, amended. In the map [ColumnIDToOrdinalMap] returns, every column id
    of the list is mapped to the [Ordinal()] of the last column of the list
    with that id, hence to the ordinal of the column itself for every
    column when the ids of the list are distinct, and no other id is
    mapped. *)
Theorem ColumnIDToOrdinalMap_last_ordinal :
  forall columns : list Column.t,
    (forall pre col post,
        columns = pre ++ col :: post ->
        (forall c, In c post -> Column.GetID c <> Column.GetID col) ->
        ColumnIDToOrdinalMap columns !! Column.GetID col
        = Some (Column.Ordinal col))
    /\ (NoDup (map Column.GetID columns) ->
        forall col,
          In col columns ->
          ColumnIDToOrdinalMap columns !! Column.GetID col
          = Some (Column.Ordinal col))
    /\ (forall id : descpb.ColumnID,
           ColumnIDToOrdinalMap columns !! id = None
           <-> forall c, In c columns -> Column.GetID c <> id).
Proof.
  intros columns.
  assert (Hlast : forall pre col post,
             columns = pre ++ col :: post ->
             (forall c, In c post -> Column.GetID c <> Column.GetID col) ->
             ColumnIDToOrdinalMap columns !! Column.GetID col
             = Some (Column.Ordinal col)).
  { intros pre col post -> Hpost. unfold ColumnIDToOrdinalMap.
    rewrite fold_left_app. simpl.
    rewrite ColumnIDToOrdinalMap_fold_other by exact Hpost.
    unfold TableColMap_Set. apply lookup_insert_eq. }
  split; [exact Hlast | split].
  - intros Hnd col Hin.
    apply in_split in Hin. destruct Hin as (pre & post & ->).
    apply (Hlast pre col post eq_refl).
    intros c Hc Heq.
    rewrite map_app in Hnd. simpl in Hnd.
    apply NoDup_app in Hnd. destruct Hnd as (_ & _ & Hnd).
    apply NoDup_cons in Hnd. destruct Hnd as [Hnotin _].
    apply Hnotin. rewrite <- Heq.
    apply list_elem_of_In, in_map, Hc.
  - intros id. split.
    + intros Hnone c Hin Heq.
      destruct (last_column_with_id columns id c Hin Heq)
        as (pre & col & post & Hsplit & Hid & Hpost).
      rewrite <- Hid in Hpost.
      rewrite <- Hid, (Hlast pre col post Hsplit Hpost) in Hnone.
      discriminate.
    + intros H. unfold ColumnIDToOrdinalMap.
      rewrite ColumnIDToOrdinalMap_fold_other by exact H.
      apply lookup_empty.
Qed.

Lemma ColumnIDToOrdinalMap_last_ordinal_witness :
  ColumnIDToOrdinalMap (tabledesc.AllColumns sample.table) !! 3%N = Some 2
  /\ ColumnIDToOrdinalMap [sample.column 1 0 1; sample.column 1 5 1] !! 1%N
     = Some 5
  /\ ColumnIDToOrdinalMap (tabledesc.AllColumns sample.table) !! 9%N = None.
Proof.
  split; [| split].
  - apply (proj1 (proj2 (ColumnIDToOrdinalMap_last_ordinal
                           (tabledesc.AllColumns sample.table)))
             ltac:(apply (bool_decide_unpack _); vm_compute; exact I)
             (tabledesc.newColumn
                (tabledesc.mutationElement
                   (sample.queued
                      (descpb.Mutation_Column
                         (sample.columnDesc 3 "c" 2 true None (Some "a + 1")
                            false))
                      descpb.WRITE_AND_DELETE_ONLY descpb.ADD 1))
                (sample.columnDesc 3 "c" 2 true None (Some "a + 1") false)
                2)).
    simpl. auto.
  - apply (proj1 (ColumnIDToOrdinalMap_last_ordinal
                    [sample.column 1 0 1; sample.column 1 5 1])
             [sample.column 1 0 1] (sample.column 1 5 1) []).
    + reflexivity.
    + intros c [].
  - apply (proj2 (proj2 (ColumnIDToOrdinalMap_last_ordinal
                           (tabledesc.AllColumns sample.table)))).
    simpl. intros c [<- | [<- | [<- | []]]]; discriminate.
Defined.

(** * Further properties *)

(** ** The types of a column list *)

(** One turn of the loop of [ColumnTypesWithInvertedCol] at a position
    inside [t]: both assignments are in range and leave the expected type
    at position [i]. *)
Lemma ColumnTypesWithInvertedCol_range_step i col rest invertedCol t :
  (i < length t)%nat ->
  ColumnTypesWithInvertedCol_range i (col :: rest) invertedCol t
  = ColumnTypesWithInvertedCol_range (S i) rest invertedCol
      (<[i := Some (typeWithInvertedCol invertedCol col)]> t).
Proof.
  intros Hi. simpl. unfold slice_set at 1, typeWithInvertedCol.
  apply Nat.ltb_lt in Hi. rewrite Hi.
  destruct invertedCol as [inverted |]; [| reflexivity].
  destruct (Column.GetID col =? Column.GetID inverted)%N; [| reflexivity].
  unfold slice_set. rewrite length_insert, Hi, list_insert_insert_eq.
  reflexivity.
Qed.

Lemma ColumnTypesWithInvertedCol_range_writes columns invertedCol i t :
  (i + length columns <= length t)%nat ->
  ColumnTypesWithInvertedCol_range i columns invertedCol t
  = Returns
      (take i t
       ++ map (fun col => Some (typeWithInvertedCol invertedCol col)) columns
       ++ drop (i + length columns) t).
Proof.
  revert i t. induction columns as [| col rest IH]; intros i t Hlen.
  - simpl. rewrite Nat.add_0_r, take_drop. reflexivity.
  - simpl in Hlen.
    rewrite ColumnTypesWithInvertedCol_range_step by lia.
    rewrite IH by (rewrite length_insert; lia).
    rewrite (take_S_r _ i (Some (typeWithInvertedCol invertedCol col)))
      by (apply list_lookup_insert_eq; lia).
    rewrite take_insert_ge by lia.
    rewrite drop_insert_lt by lia.
    rewrite <- app_assoc. simpl.
    replace (S (i + length rest)) with (i + S (length rest))%nat by lia.
    reflexivity.
Qed.


(** X2. [ColumnTypes] never panics and returns the types of the columns,
    [GetType()] of each, in order. *)
Theorem ColumnTypes_types :
  forall columns : list Column.t,
    ColumnTypes columns
    = Returns (map (fun col => Some (Column.GetType col)) columns).
Proof.
  intros columns. unfold ColumnTypes, ColumnTypesWithInvertedCol.
  rewrite ColumnTypesWithInvertedCol_range_writes
    by (rewrite length_replicate; lia).
  simpl. rewrite drop_ge by (rewrite length_replicate; lia).
  apply f_equal, app_nil_r.
Qed.

(** X3. An inverted column whose id no column of the list has changes
    nothing: the result is the one of [ColumnTypes]. *)
Theorem ColumnTypesWithInvertedCol_absent_id :
  forall (columns : list Column.t) (inverted : Column.t),
    (forall col, In col columns -> Column.GetID col <> Column.GetID inverted) ->
    ColumnTypesWithInvertedCol columns (Some inverted) = ColumnTypes columns.
Proof.
  intros columns inverted H. unfold ColumnTypes, ColumnTypesWithInvertedCol.
  rewrite !ColumnTypesWithInvertedCol_range_writes
    by (rewrite length_replicate; lia).
  do 3 f_equal. apply map_ext_in. intros col Hin. simpl.
  destruct (N.eqb_spec (Column.GetID col) (Column.GetID inverted)) as [E |];
    [elim (H col Hin E) | reflexivity].
Qed.

Lemma ColumnTypesWithInvertedCol_absent_id_witness :
  ColumnTypesWithInvertedCol
    [sample.column 1 0 7; sample.column 2 1 4] (Some (sample.column 3 2 9))
  = ColumnTypes [sample.column 1 0 7; sample.column 2 1 4].
Proof.
  apply (ColumnTypesWithInvertedCol_absent_id
           [sample.column 1 0 7; sample.column 2 1 4] (sample.column 3 2 9)).
  intros col [<- | [<- | []]]; discriminate.
Defined.

(** ** More on traversal and search *)




(** X5. With the three options set the search set is the whole collection:
    [ForEachIndex] traverses all the indexes and [FindIndex] searches all of
    them. *)
Theorem all_options_search_all_indexes :
  forall (desc : TableDescriptor.t) (opts : IndexOpts.t),
    IndexOpts.NonPhysicalPrimaryIndex opts = true ->
    IndexOpts.AddMutations opts = true ->
    IndexOpts.DropMutations opts = true ->
    (forall idx, isIndexInSearchSet desc opts idx = true)
    /\ (forall (error : Type) (Done : error -> bool) (St : Type)
               (f : visitor error St) (st : St),
           ForEachIndex Done desc opts f st
           = forEachIndex Done (TableDescriptor.AllIndexes desc) f st)
    /\ (forall test : Index.t -> bool,
           FindIndex desc opts test
           = findIndex (TableDescriptor.AllIndexes desc) test).
Proof.
  intros desc opts Hn Ha Hd.
  assert (Hall : forall idx, isIndexInSearchSet desc opts idx = true).
  { intros idx. unfold isIndexInSearchSet. rewrite Hn, Ha, Hd. reflexivity. }
  split; [exact Hall | split].
  - intros error Done St f st. unfold ForEachIndex.
    rewrite ForEachIndex_range_filter, filter_all_true; auto.
  - intros test. unfold FindIndex.
    rewrite FindIndex_range_findIndex.
    rewrite <- findIndex_filter, filter_all_true; auto.
Qed.

Lemma all_options_search_all_indexes_witness :
  FindIndex (sample.descriptor false) sample.allOpts Index.Primary
  = findIndex (TableDescriptor.AllIndexes (sample.descriptor false))
      Index.Primary.
Proof.
  apply (all_options_search_all_indexes (sample.descriptor false)
           sample.allOpts eq_refl eq_refl eq_refl).
Defined.

(** X6. Setting more options only enlarges the search set: an index in the
    search set stays in it, and a search that finds an index still finds
    one. *)
Theorem search_set_monotone :
  forall (desc : TableDescriptor.t) (opts opts' : IndexOpts.t),
    (IndexOpts.NonPhysicalPrimaryIndex opts = true ->
     IndexOpts.NonPhysicalPrimaryIndex opts' = true) ->
    (IndexOpts.AddMutations opts = true ->
     IndexOpts.AddMutations opts' = true) ->
    (IndexOpts.DropMutations opts = true ->
     IndexOpts.DropMutations opts' = true) ->
    (forall idx,
        isIndexInSearchSet desc opts idx = true ->
        isIndexInSearchSet desc opts' idx = true)
    /\ (forall test : Index.t -> bool,
           FindIndex desc opts test <> None ->
           FindIndex desc opts' test <> None).
Proof.
  intros desc opts opts' Hn Ha Hd.
  assert (Hmono : forall idx,
             isIndexInSearchSet desc opts idx = true ->
             isIndexInSearchSet desc opts' idx = true).
  { intros idx. unfold isIndexInSearchSet.
    destruct (IndexOpts.NonPhysicalPrimaryIndex opts),
      (IndexOpts.NonPhysicalPrimaryIndex opts'),
      (IndexOpts.AddMutations opts), (IndexOpts.AddMutations opts'),
      (IndexOpts.DropMutations opts), (IndexOpts.DropMutations opts'),
      (Index.Primary idx), (TableDescriptor.IsPhysicalTable desc),
      (TableElementMaybeMutation.Adding idx),
      (TableElementMaybeMutation.Dropped idx); simpl;
      try reflexivity; try discriminate;
      try (discriminate (Hn eq_refl)); try (discriminate (Ha eq_refl));
      discriminate (Hd eq_refl). }
  split; [exact Hmono |].
  intros test Hfound Hnone. unfold FindIndex in *.
  rewrite FindIndex_range_findIndex in Hfound, Hnone.
  destruct (findIndex (TableDescriptor.AllIndexes desc)
              (fun i => isIndexInSearchSet desc opts i && test i))
    as [idx |] eqn:E; [| congruence].
  apply (proj1 (findIndex_first_match _ _)) in E.
  destruct E as (pre & post & Hsplit & Hok & _).
  apply andb_true_iff in Hok. destruct Hok as [Hset Htest].
  pose proof (proj1 (proj2 (findIndex_first_match
                              (TableDescriptor.AllIndexes desc)
                              (fun i => isIndexInSearchSet desc opts' i
                                        && test i))) Hnone idx) as Hfalse.
  simpl in Hfalse. rewrite (Hmono idx Hset), Htest in Hfalse.
  discriminate Hfalse. rewrite Hsplit. apply in_or_app. right. left.
  reflexivity.
Qed.

Lemma search_set_monotone_witness :
  isIndexInSearchSet (sample.descriptor true) sample.allOpts sample.i1 = true
  /\ FindIndex (sample.descriptor true) sample.allOpts Index.IsPartial
     <> None.
Proof.
  assert (M := search_set_monotone (sample.descriptor true)
                 sample.noOpts sample.allOpts
                 (fun _ => eq_refl) (fun _ => eq_refl) (fun _ => eq_refl)).
  split.
  - apply (proj1 M). reflexivity.
  - apply (proj2 M). discriminate.
Defined.

Lemma forEachIndex_stopAtFirst {error : Type} (Done : error -> bool)
  (stop : error) (test : Index.t -> bool) slice found :
  Done stop = true ->
  forEachIndex Done slice (stopAtFirst stop test) found
  = (None,
     match findIndex slice test with
     | Some idx => Some idx
     | None => found
     end).
Proof.
  intros Hstop. revert found.
  induction slice as [| idx rest IH]; intros found; simpl.
  - reflexivity.
  - unfold stopAtFirst at 1. destruct (test idx).
    + rewrite Hstop. reflexivity.
    + apply IH.
Qed.

(** X7. A search is a traversal that stops at the first match: run with a
    callback that remembers the first index passing the test and returns
    the early-termination signal there, [ForEachIndex] returns nil and
    leaves exactly the result of [FindIndex]; likewise for the traversal
    and the search of any view. *)
Theorem FindIndex_as_ForEachIndex :
  forall (error : Type) (Done : error -> bool) (stop : error)
         (test : Index.t -> bool),
    Done stop = true ->
    (forall desc opts,
        ForEachIndex Done desc opts (stopAtFirst stop test) None
        = (None, FindIndex desc opts test))
    /\ (forall slice,
           forEachIndex Done slice (stopAtFirst stop test) None
           = (None, findIndex slice test)).
Proof.
  intros error Done stop test Hstop.
  assert (Hslice : forall slice,
             forEachIndex Done slice (stopAtFirst stop test) None
             = (None, findIndex slice test)).
  { intros slice. rewrite forEachIndex_stopAtFirst by exact Hstop.
    destruct (findIndex slice test); reflexivity. }
  split; [| exact Hslice].
  intros desc opts. unfold ForEachIndex, FindIndex.
  rewrite ForEachIndex_range_filter, Hslice.
  rewrite FindIndex_range_findIndex, findIndex_filter. reflexivity.
Qed.

Lemma FindIndex_as_ForEachIndex_witness :
  ForEachIndex sample.Done (sample.descriptor true) sample.allOpts
    (stopAtFirst sample.StopIteration
       (fun idx => TableElementMaybeMutation.IsMutation idx)) None
  = (None, Some sample.i3).
Proof.
  apply (proj1 (FindIndex_as_ForEachIndex sample.error sample.Done
                  sample.StopIteration
                  (fun idx => TableElementMaybeMutation.IsMutation idx)
                  eq_refl)
           (sample.descriptor true) sample.allOpts).
Defined.

(** ** More on the comparison of type versions *)

(** The comparison returns true exactly when every column of the first
    list has a counterpart with the same version, at the same position. *)
Lemma UserDefinedTypeColsHaveSameVersion_true_iff desc otherDesc :
  UserDefinedTypeColsHaveSameVersion desc otherDesc = Returns true
  <-> forall (i : nat) c,
        TableDescriptor.UserDefinedTypeColumns desc !! i = Some c ->
        exists c',
          TableDescriptor.UserDefinedTypeColumns otherDesc !! i = Some c'
          /\ typeVersion c = typeVersion c'.
Proof.
  unfold UserDefinedTypeColsHaveSameVersion.
  pose proof (UserDefinedTypeColsHaveSameVersion_range_cases 0
                (TableDescriptor.UserDefinedTypeColumns desc)
                (TableDescriptor.UserDefinedTypeColumns otherDesc)) as C.
  simpl in C.
  destruct (UserDefinedTypeColsHaveSameVersion_range 0
              (TableDescriptor.UserDefinedTypeColumns desc)
              (TableDescriptor.UserDefinedTypeColumns otherDesc))
    as [[|] |]; split; try discriminate; try (intros _; exact C);
    try reflexivity.
  - intros H. destruct C as (j & c & c' & Hj & Hc' & Hv).
    destruct (H j c Hj) as (c'' & Hc'' & Hv'). congruence.
  - intros H. destruct C as [Hlen _].
    destruct (lookup_lt_is_Some_2
                (TableDescriptor.UserDefinedTypeColumns desc)
                (length (TableDescriptor.UserDefinedTypeColumns otherDesc))
                Hlen) as [c Hc].
    destruct (H _ c Hc) as (c' & Hc' & _).
    apply lookup_lt_Some in Hc'. lia.
Qed.

(** When the second list is at least as long as the first the comparison
    returns a boolean. *)
Lemma UserDefinedTypeColsHaveSameVersion_returns desc otherDesc :
  (length (TableDescriptor.UserDefinedTypeColumns desc)
   <= length (TableDescriptor.UserDefinedTypeColumns otherDesc))%nat ->
  exists b, UserDefinedTypeColsHaveSameVersion desc otherDesc = Returns b.
Proof.
  intros Hlen. unfold UserDefinedTypeColsHaveSameVersion.
  pose proof (UserDefinedTypeColsHaveSameVersion_range_cases 0
                (TableDescriptor.UserDefinedTypeColumns desc)
                (TableDescriptor.UserDefinedTypeColumns otherDesc)) as C.
  simpl in C.
  destruct (UserDefinedTypeColsHaveSameVersion_range 0
              (TableDescriptor.UserDefinedTypeColumns desc)
              (TableDescriptor.UserDefinedTypeColumns otherDesc))
    as [b |]; [eauto |].
  destruct C as [Hlt _]. lia.
Qed.

(** X8. A descriptor always has the same type versions as itself: the
    comparison of a descriptor with itself returns true, without panic. *)
Theorem UserDefinedTypeColsHaveSameVersion_refl :
  forall desc : TableDescriptor.t,
    UserDefinedTypeColsHaveSameVersion desc desc = Returns true.
Proof.
  intros desc. apply UserDefinedTypeColsHaveSameVersion_true_iff.
  intros i c H. exists c. auto.
Qed.

(** X9. On descriptors with equally many user-defined-type columns the
    comparison does not panic and does not depend on the order of its
    arguments. *)
Theorem UserDefinedTypeColsHaveSameVersion_sym :
  forall desc otherDesc : TableDescriptor.t,
    length (TableDescriptor.UserDefinedTypeColumns desc)
    = length (TableDescriptor.UserDefinedTypeColumns otherDesc) ->
    UserDefinedTypeColsHaveSameVersion desc otherDesc
    = UserDefinedTypeColsHaveSameVersion otherDesc desc
    /\ UserDefinedTypeColsHaveSameVersion desc otherDesc
       <> PanicIndexOutOfRange.
Proof.
  assert (Hhalf : forall d1 d2 : TableDescriptor.t,
             length (TableDescriptor.UserDefinedTypeColumns d1)
             = length (TableDescriptor.UserDefinedTypeColumns d2) ->
             UserDefinedTypeColsHaveSameVersion d1 d2 = Returns true ->
             UserDefinedTypeColsHaveSameVersion d2 d1 = Returns true).
  { intros d1 d2 Hlen H.
    apply UserDefinedTypeColsHaveSameVersion_true_iff.
    intros i c' Hc'.
    destruct (lookup_lt_is_Some_2
                (TableDescriptor.UserDefinedTypeColumns d1) i) as [c Hc].
    { apply lookup_lt_Some in Hc'. lia. }
    exists c. split; [exact Hc |].
    destruct (proj1 (UserDefinedTypeColsHaveSameVersion_true_iff d1 d2)
                H i c Hc) as (c'' & Hc'' & Hv).
    congruence. }
  intros desc otherDesc Hlen.
  destruct (UserDefinedTypeColsHaveSameVersion_returns desc otherDesc)
    as [b Hb]; [lia |].
  destruct (UserDefinedTypeColsHaveSameVersion_returns otherDesc desc)
    as [b' Hb']; [lia |].
  split; [| rewrite Hb; discriminate].
  rewrite Hb, Hb'. destruct b, b'; try reflexivity.
  - rewrite (Hhalf desc otherDesc Hlen Hb) in Hb'. discriminate.
  - rewrite (Hhalf otherDesc desc (eq_sym Hlen) Hb') in Hb. discriminate.
Qed.

Lemma UserDefinedTypeColsHaveSameVersion_sym_witness :
  UserDefinedTypeColsHaveSameVersion
    (sample.withColumns [sample.column 1 0 7; sample.column 2 1 4])
    (sample.withColumns [sample.column 1 0 7; sample.column 2 1 5])
  = UserDefinedTypeColsHaveSameVersion
      (sample.withColumns [sample.column 1 0 7; sample.column 2 1 5])
      (sample.withColumns [sample.column 1 0 7; sample.column 2 1 4]).
Proof.
  apply (UserDefinedTypeColsHaveSameVersion_sym
           (sample.withColumns [sample.column 1 0 7; sample.column 2 1 4])
           (sample.withColumns [sample.column 1 0 7; sample.column 2 1 5])).
  reflexivity.
Defined.

(** X10. Agreement of type versions is transitive: if the comparison of a
    first descriptor with a second and of the second with a third return
    true, so does the comparison of the first with the third. *)
Theorem UserDefinedTypeColsHaveSameVersion_trans :
  forall d1 d2 d3 : TableDescriptor.t,
    UserDefinedTypeColsHaveSameVersion d1 d2 = Returns true ->
    UserDefinedTypeColsHaveSameVersion d2 d3 = Returns true ->
    UserDefinedTypeColsHaveSameVersion d1 d3 = Returns true.
Proof.
  intros d1 d2 d3 H12 H23.
  apply UserDefinedTypeColsHaveSameVersion_true_iff.
  intros i c Hc.
  destruct (proj1 (UserDefinedTypeColsHaveSameVersion_true_iff d1 d2)
              H12 i c Hc) as (c' & Hc' & Hv).
  destruct (proj1 (UserDefinedTypeColsHaveSameVersion_true_iff d2 d3)
              H23 i c' Hc') as (c'' & Hc'' & Hv').
  exists c''. split; [exact Hc'' | congruence].
Qed.

Lemma UserDefinedTypeColsHaveSameVersion_trans_witness :
  UserDefinedTypeColsHaveSameVersion
    (sample.withColumns [sample.column 1 0 7])
    (sample.withColumns
       [sample.column 1 0 7; sample.column 2 1 4; sample.column 3 2 9])
  = Returns true.
Proof.
  apply (UserDefinedTypeColsHaveSameVersion_trans
           (sample.withColumns [sample.column 1 0 7])
           (sample.withColumns [sample.column 5 3 7; sample.column 2 1 4])
           (sample.withColumns
              [sample.column 1 0 7; sample.column 2 1 4;
               sample.column 3 2 9]));
    reflexivity.
Defined.

(** ** More on the map from column id to ordinal *)

Lemma ColumnIDToOrdinalMap_fold_union (columns : list Column.t)
  (m : TableColMap) :
  fold_left
    (fun m col => TableColMap_Set m (Column.GetID col) (Column.Ordinal col))
    columns m
  = ColumnIDToOrdinalMap columns ∪ m.
Proof.
  unfold ColumnIDToOrdinalMap. revert m.
  induction columns as [| col rest IH]; intros m; simpl.
  - symmetry. apply (left_id_L ∅ (∪)).
  - rewrite IH. rewrite (IH (TableColMap_Set ∅ _ _)).
    unfold TableColMap_Set.
    rewrite insert_empty, <- (assoc_L (∪)).
    rewrite <- insert_union_singleton_l. reflexivity.
Qed.

(** X11. The map of a concatenation is the map of the second list
    completed by the map of the first: an id is looked up in the columns of
    the second list first, and in those of the first list only when the
    second has no column with that id. *)
Theorem ColumnIDToOrdinalMap_app :
  forall (columns1 columns2 : list Column.t) (id : descpb.ColumnID),
    ColumnIDToOrdinalMap (columns1 ++ columns2) !! id
    = match ColumnIDToOrdinalMap columns2 !! id with
      | Some ordinal => Some ordinal
      | None => ColumnIDToOrdinalMap columns1 !! id
      end.
Proof.
  intros columns1 columns2 id.
  unfold ColumnIDToOrdinalMap at 1. rewrite fold_left_app.
  rewrite ColumnIDToOrdinalMap_fold_union.
  fold (ColumnIDToOrdinalMap columns1).
  rewrite lookup_union.
  destruct (ColumnIDToOrdinalMap columns2 !! id),
    (ColumnIDToOrdinalMap columns1 !! id); reflexivity.
Qed.

Lemma ColumnIDToOrdinalMap_dom (columns : list Column.t) :
  dom (ColumnIDToOrdinalMap columns)
  = (list_to_set (map Column.GetID columns) : gset N).
Proof.
  unfold ColumnIDToOrdinalMap.
  induction columns as [| col rest IH] using rev_ind.
  - simpl. apply dom_empty_L.
  - rewrite fold_left_app, map_app, list_to_set_app_L. simpl.
    unfold TableColMap_Set at 1. rewrite dom_insert_L, IH.
    rewrite (right_id_L ∅ (∪)). apply (comm_L (∪)).
Qed.

(** X12. The map has at most one entry per column of the list, and exactly
    one per column when the ids of the columns are distinct. *)
Theorem ColumnIDToOrdinalMap_size :
  forall columns : list Column.t,
    (size (ColumnIDToOrdinalMap columns) <= length columns)%nat
    /\ (NoDup (map Column.GetID columns) ->
        size (ColumnIDToOrdinalMap columns) = length columns).
Proof.
  intros columns. split.
  - unfold ColumnIDToOrdinalMap.
    induction columns as [| col rest IH] using rev_ind.
    + simpl. rewrite map_size_empty. lia.
    + rewrite fold_left_app, length_app. simpl.
      unfold TableColMap_Set at 1. rewrite map_size_insert.
      match goal with
      | |- context [match ?o with Some _ => _ | None => _ end] =>
          destruct o
      end; simpl; lia.
  - intros Hnd.
    rewrite <- (size_dom (D := gset N)), ColumnIDToOrdinalMap_dom.
    rewrite size_list_to_set by exact Hnd.
    apply length_map.
Qed.

Lemma ColumnIDToOrdinalMap_size_witness :
  size (ColumnIDToOrdinalMap (tabledesc.AllColumns sample.table)) = 3%nat.
Proof.
  apply (proj2 (ColumnIDToOrdinalMap_size
                  (tabledesc.AllColumns sample.table))).
  apply (bool_decide_unpack _). vm_compute. exact I.
Defined.

Lemma ColumnIDToOrdinalMap_lookup_Some (columns : list Column.t)
  (id : descpb.ColumnID) (ordinal : Z) :
  ColumnIDToOrdinalMap columns !! id = Some ordinal ->
  exists pre col post,
    columns = pre ++ col :: post
    /\ Column.GetID col = id
    /\ Column.Ordinal col = ordinal.
Proof.
  intros H.
  destruct (column_id_in_dec columns id) as [(c & Hc & Hid) | Hnone].
  - destruct (last_column_with_id columns id c Hc Hid)
      as (pre & col & post & -> & Hcol & Hpost).
    exists pre, col, post. split; [reflexivity |]. split; [exact Hcol |].
    unfold ColumnIDToOrdinalMap in H. rewrite fold_left_app in H.
    simpl in H.
    rewrite ColumnIDToOrdinalMap_fold_other in H by exact Hpost.
    unfold TableColMap_Set in H. rewrite <- Hcol in H.
    rewrite lookup_insert_eq in H. congruence.
  - unfold ColumnIDToOrdinalMap in H.
    rewrite ColumnIDToOrdinalMap_fold_other in H by exact Hnone.
    rewrite lookup_empty in H. discriminate.
Qed.

(** X13. For a column list in which the ordinal of every column is its
    position, as in the collection of all columns of a table, the map
    inverts the list: the ordinal an id is mapped to is the position of a
    column of the list that has this id. *)
Theorem ColumnIDToOrdinalMap_round_trip :
  forall (columns : list Column.t) (id : descpb.ColumnID) (ordinal : Z),
    (forall (i : nat) col,
        columns !! i = Some col -> Column.Ordinal col = Z.of_nat i) ->
    ColumnIDToOrdinalMap columns !! id = Some ordinal ->
    0 <= ordinal < Z.of_nat (length columns)
    /\ exists col,
         columns !! Z.to_nat ordinal = Some col /\ Column.GetID col = id.
Proof.
  intros columns id ordinal Hpos H.
  apply ColumnIDToOrdinalMap_lookup_Some in H.
  destruct H as (pre & col & post & -> & Hid & Hord).
  assert ((pre ++ col :: post) !! length pre = Some col) as Hat.
  { rewrite lookup_app_r by lia. rewrite Nat.sub_diag. reflexivity. }
  rewrite (Hpos _ _ Hat) in Hord. subst ordinal.
  rewrite length_app. simpl. split; [lia |].
  exists col. rewrite Nat2Z.id. auto.
Qed.

Lemma ColumnIDToOrdinalMap_round_trip_witness :
  exists col,
    tabledesc.AllColumns sample.table !! Z.to_nat 2 = Some col
    /\ Column.GetID col = 3%N.
Proof.
  apply (ColumnIDToOrdinalMap_round_trip
           (tabledesc.AllColumns sample.table) 3%N 2).
  - intros [| [| [| i]]] col H; simpl in H; try discriminate;
      injection H as <-; reflexivity.
  - reflexivity.
Defined.

Lemma forEachIndex_error_not_Done {error : Type} (Done : error -> bool)
  {St : Type} (f : visitor error St) slice st err st' :
  forEachIndex Done slice f st = (Some err, st') ->
  Done err = false
  /\ exists idx st0, In idx slice /\ f idx st0 = (Some err, st').
Proof.
  revert st. induction slice as [| idx rest IH]; intros st H; simpl in H.
  - discriminate.
  - destruct (f idx st) as [[e |] st1] eqn:E.
    + destruct (Done e) eqn:D; [discriminate |].
      injection H as <- <-. split; [exact D |].
      exists idx, st. split; [left; reflexivity | exact E].
    + apply IH in H. destruct H as (D & idx' & st0 & Hin & Hf).
      split; [exact D |]. exists idx', st0. split; [right |]; assumption.
Qed.

(** X14. The early-termination signal never reaches the caller: an error
    returned by [ForEachIndex], or by the traversal of a view, is an error
    that the callback returned on an index of the search set (of the view)
    and that is not the early-termination signal. *)
Theorem ForEachIndex_error_from_callback :
  forall (error : Type) (Done : error -> bool) (St : Type)
         (f : visitor error St) (st st' : St) (err : error),
    (forall desc opts,
        ForEachIndex Done desc opts f st = (Some err, st') ->
        Done err = false
        /\ exists idx st0,
             In idx (TableDescriptor.AllIndexes desc)
             /\ isIndexInSearchSet desc opts idx = true
             /\ f idx st0 = (Some err, st'))
    /\ (forall slice,
           forEachIndex Done slice f st = (Some err, st') ->
           Done err = false
           /\ exists idx st0, In idx slice /\ f idx st0 = (Some err, st')).
Proof.
  intros error Done St f st st' err. split.
  - intros desc opts H. unfold ForEachIndex in H.
    rewrite ForEachIndex_range_filter in H.
    apply forEachIndex_error_not_Done in H.
    destruct H as (D & idx & st0 & Hin & Hf).
    apply filter_In in Hin. destruct Hin as [Hall Hset].
    split; [exact D |]. exists idx, st0. auto.
  - intros slice H. apply forEachIndex_error_not_Done in H. exact H.
Qed.

Lemma ForEachIndex_error_from_callback_witness :
  sample.Done (sample.Failure "boom") = false.
Proof.
  apply (proj1 (ForEachIndex_error_from_callback sample.error sample.Done nat
                  (sample.visit 3 (sample.Failure "boom")) 0%nat 3%nat
                  (sample.Failure "boom"))
           (sample.descriptor true) sample.noOpts).
  reflexivity.
Defined.
